(** * SearchSync: circuit breaker, retry policy, search orchestrator and
      relevance scorer

    A shallow embedding of the orchestration core of SearchSync
    ([utils/error-handling.js], [integrations/utils.js],
    [integrations/registry.js], [relevance-scorer.js] and the ['search'] IPC
    handler of [main.js]) together with the properties stated about it.

    Conventions of the embedding.
    - Integer-valued JS numbers (counters, thresholds, millisecond clocks) are
      [Z]; delays of the retry policy are exact rationals [Q] and are floored
      to [Z] where the code calls [Math.floor]; scores are real numbers [R]
      extended with [NaN] (type [num]).  Rounding of IEEE doubles is not
      modelled.
    - Asynchronous functions are state transformers over a [World] that holds
      the wall clock, the log of provider invocations and the source of
      [Math.random] samples.  A promise that settles is a [Settled] value.
    - JS objects used as maps are [gmap]s; [Object.entries] order is kept by
      representing the registry as a list. *)

From Stdlib Require Import ZArith QArith Qround Qminmax Qpower Reals Psatz String Ascii List.
From Stdlib Require Import DecimalString Sorted.
From stdpp Require Import base option list gmap strings.

Local Open Scope Z_scope.

(** ** JavaScript values as far as the handler inspects them *)

Module JS.

Inductive value :=
| Undefined
| Null
| Bool (b : bool)
| Num (n : Z)
| Str (s : string).

(** [Boolean(v)] *)
Definition truthy (v : value) : bool :=
  match v with
  | Undefined | Null => false
  | Bool b => b
  | Num n => negb (n =? 0)
  | Str s => negb (String.eqb s "")
  end.

(** [x || d] on a numeric option field: [undefined] and [0] are falsy. *)
Definition or_num (x : option Z) (d : Z) : Z :=
  match x with
  | Some n => if n =? 0 then d else n
  | None => d
  end.

Definition or_numQ (x : option Q) (d : Q) : Q :=
  match x with
  | Some q => if Qeq_bool q 0 then d else q
  | None => d
  end.

(** [x || d] on a boolean option field. *)
Definition or_bool (x : option bool) (d : bool) : bool :=
  match x with
  | Some true => true
  | _ => d
  end.

(** [\s] restricted to ASCII: space, tab, line feed, vertical tab, form
    feed, carriage return. *)
Definition is_space (c : ascii) : bool :=
  let n := nat_of_ascii c in
  (n =? 32)%nat || ((9 <=? n)%nat && (n <=? 13)%nat).

Fixpoint trim_start (s : string) : string :=
  match s with
  | EmptyString => EmptyString
  | String c s' => if is_space c then trim_start s' else s
  end.

Fixpoint rev_string (acc s : string) : string :=
  match s with
  | EmptyString => acc
  | String c s' => rev_string (String c acc) s'
  end.

(** [String.prototype.trim] *)
Definition trim (s : string) : string :=
  rev_string EmptyString (trim_start (rev_string EmptyString (trim_start s))).

End JS.

(** ** The world an asynchronous call runs in *)

Record World := mkWorld {
  clock : Z;               (* what [Date.now()] returns *)
  calls : list string;     (* provider ids whose searchHandler was invoked, newest first *)
  entropy : nat -> Q;      (* the successive values of [Math.random()] *)
  draws : nat              (* how many of them were consumed *)
}.

Definition Date_now (w : World) : Z := clock w.

Definition Math_random (w : World) : Q * World :=
  (entropy w (draws w), mkWorld (clock w) (calls w) (entropy w) (S (draws w))).

(** [await sleep(ms)]: the timer fires once [ms] milliseconds have passed. *)
Definition sleep (ms : Z) (w : World) : World :=
  mkWorld (clock w + Z.max 0 ms) (calls w) (entropy w) (draws w).

Module Http.
Record Response := mkResponse {
  status : Z;
  retry_after : option string     (* [headers['retry-after']] *)
}.
End Http.

(** A thrown [Error] object with the properties the code reads; a thrown
    [undefined] is the error without any property. *)
Record Error := mkError {
  message : string;
  code : option string;
  response : option Http.Response
}.

Inductive Settled (A : Type) :=
| Fulfilled (a : A)
| Rejected (reason : Error).
Arguments Fulfilled {A} a.
Arguments Rejected {A} reason.

(** An [async () => ...] thunk. *)
Definition Task (A : Type) := World -> Settled A * World.

(** ** integrations/utils.js *)

Module IntegrationUtils.

Definition transientCodes : list string :=
  ["ETIMEDOUT"; "ECONNRESET"; "ECONNABORTED"; "ENETUNREACH"; "EHOSTUNREACH";
   "ECONNREFUSED"]%string.

Definition transientStatusCodes : list Z := [408; 429; 500; 502; 503; 504].

Definition includes_string (l : list string) (s : string) : bool :=
  existsb (String.eqb s) l.

Definition includes_Z (l : list Z) (n : Z) : bool := existsb (Z.eqb n) l.

(** [isTransientError(error)] *)
Definition isTransientError (error : Error) : bool :=
  match code error with
  | Some c => includes_string transientCodes c
  | None => false
  end
  ||
  match response error with
  | Some r => includes_Z transientStatusCodes (Http.status r)
  | None => false
  end.

Section HandleApiError.

(** [sanitizeErrorMessage(message, { provider, maxLength: 150 })] of
    utils/error-sanitizer.js, a regular-expression clean-up of the message
    that no property below looks into. *)
Variable sanitizeErrorMessage : string -> string -> string.

Definition status_message (r : Http.Response) : string :=
  let st := Http.status r in
  if (st =? 401) || (st =? 403) then
    "Authentication failed. Please check your credentials and permissions."
  else if st =? 404 then
    "The requested resource was not found. Please verify your configuration."
  else if st =? 429 then
    match Http.retry_after r with
    | Some s =>
        if String.eqb s "" then "Too many requests. Please wait a moment and try again."
        else "Too many requests. Please wait " ++ s ++ " seconds and try again."
    | None => "Too many requests. Please wait a moment and try again."
    end
  else if (st =? 500) || (st =? 502) || (st =? 503) || (st =? 504) then
    "The service is temporarily unavailable. Please try again later."
  else "Request failed. Please try again.".

Definition code_is (error : Error) (c : string) : bool :=
  match code error with
  | Some c' => String.eqb c' c
  | None => false
  end.

(** [handleApiError(error, integrationName, correlationId)]; logging is not
    modelled. *)
Definition handleApiError (error : Error) (integrationName : string) : string :=
  let message0 :=
    if String.eqb (message error) "" then "Unknown error" else message error in
  let message1 :=
    match response error with
    | Some r => status_message r
    | None =>
        if code_is error "ECONNREFUSED" || code_is error "ENOTFOUND" then
          "Unable to connect to the service. Please check your network connection."
        else if code_is error "ETIMEDOUT" || code_is error "ECONNABORTED" then
          "The request timed out. Please try again."
        else if code_is error "ENETUNREACH" then
          "Network is unreachable. Please check your internet connection."
        else message0
    end in
  integrationName ++ " error: " ++ sanitizeErrorMessage message1 integrationName.

End HandleApiError.

End IntegrationUtils.

(** ** utils/error-handling.js *)

Module ErrorHandling.

Inductive State := CLOSED | OPEN | HALF_OPEN.

Record CircuitBreaker := mkBreaker {
  threshold : Z;
  timeout : Z;
  resetTimeout : Z;
  failureCount : Z;
  lastFailure : option Z;
  state : State;
  nextAttempt : option Z
}.

Record BreakerOptions := mkBreakerOptions {
  opt_threshold : option Z;
  opt_timeout : option Z;
  opt_resetTimeout : option Z
}.

Definition no_options : BreakerOptions := mkBreakerOptions None None None.

(** [constructor(options = {})] *)
Definition new_CircuitBreaker (options : BreakerOptions) : CircuitBreaker :=
  {| threshold := JS.or_num (opt_threshold options) 5;
     timeout := JS.or_num (opt_timeout options) 60000;
     resetTimeout := JS.or_num (opt_resetTimeout options) 30000;
     failureCount := 0;
     lastFailure := None;
     state := CLOSED;
     nextAttempt := None |}.

(** [setState(state)]; the log line is not modelled. *)
Definition setState (s : State) (self : CircuitBreaker) : CircuitBreaker :=
  mkBreaker (threshold self) (timeout self) (resetTimeout self)
            (failureCount self) (lastFailure self) s (nextAttempt self).

(** [onSuccess()] *)
Definition onSuccess (self : CircuitBreaker) : CircuitBreaker :=
  setState CLOSED
    (mkBreaker (threshold self) (timeout self) (resetTimeout self)
               0 (lastFailure self) (state self) (nextAttempt self)).

(** [onFailure()], run at the instant [now]. *)
Definition onFailure (now : Z) (self : CircuitBreaker) : CircuitBreaker :=
  let self1 :=
    mkBreaker (threshold self) (timeout self) (resetTimeout self)
              (failureCount self + 1) (Some now) (state self) (nextAttempt self) in
  if threshold self1 <=? failureCount self1 then
    let self2 := setState OPEN self1 in
    mkBreaker (threshold self2) (timeout self2) (resetTimeout self2)
              (failureCount self2) (lastFailure self2) (state self2)
              (Some (now + resetTimeout self2))
  else self1.

Definition circuit_open_error : Error :=
  mkError "Circuit breaker is OPEN - service unavailable" None None.

(** [Date.now() < this.nextAttempt]; a [null] deadline compares as [0]. *)
Definition before_next_attempt (now : Z) (self : CircuitBreaker) : bool :=
  match nextAttempt self with
  | Some t => now <? t
  | None => now <? 0
  end.

(** The synchronous prologue of [execute]: either the call is refused, or
    it is let through with the (possibly HALF_OPEN) breaker. *)
Definition gate (now : Z) (self : CircuitBreaker) : Error + CircuitBreaker :=
  match state self with
  | OPEN =>
      if before_next_attempt now self then inl circuit_open_error
      else inr (setState HALF_OPEN self)
  | _ => inr self
  end.

(** The epilogue of [execute], once [await fn()] has settled. *)
Definition settle {A} (now : Z) (r : Settled A) (self : CircuitBreaker)
  : CircuitBreaker :=
  match r with
  | Fulfilled _ => onSuccess self
  | Rejected _ => onFailure now self
  end.

(** [async execute(fn, context = {})] *)
Definition execute {A} (self : CircuitBreaker) (fn : Task A) (w : World)
  : Settled A * CircuitBreaker * World :=
  match gate (Date_now w) self with
  | inl err => (Rejected err, self, w)
  | inr self1 =>
      let '(r, w1) := fn w in
      (r, settle (Date_now w1) r self1, w1)
  end.

(** *** RetryMechanism *)

Record RetryMechanism := mkRetry {
  maxRetries : Z;
  baseDelay : Q;
  maxDelay : Q;
  jitter : bool
}.

Record RetryOptions := mkRetryOptions {
  opt_maxRetries : option Z;
  opt_baseDelay : option Q;
  opt_maxDelay : option Q;
  opt_jitter : option bool
}.

(** [constructor(options = {})]; note [options.jitter || true]. *)
Definition new_RetryMechanism (options : RetryOptions) : RetryMechanism :=
  {| maxRetries := JS.or_num (opt_maxRetries options) 3;
     baseDelay := JS.or_numQ (opt_baseDelay options) 1000;
     maxDelay := JS.or_numQ (opt_maxDelay options) 30000;
     jitter := JS.or_bool (opt_jitter options) true |}.

(** [Math.min(this.baseDelay * Math.pow(2, attempt - 1), this.maxDelay)] *)
Definition backoff (self : RetryMechanism) (attempt : Z) : Q :=
  Qmin (baseDelay self * Qpower 2 (attempt - 1)) (maxDelay self).

(** The body of [calculateDelay] once [Math.random()] has returned [r]. *)
Definition jittered (self : RetryMechanism) (attempt : Z) (r : Q) : Z :=
  let delay := backoff self attempt in
  let delay := if jitter self then (delay * ((1 # 2) + r * (1 # 2)))%Q else delay in
  Qfloor delay.

(** [calculateDelay(attempt)]; [Math.random] is only called with jitter on. *)
Definition calculateDelay (self : RetryMechanism) (attempt : Z) (w : World)
  : Z * World :=
  if jitter self then
    let '(r, w1) := Math_random w in (jittered self attempt r, w1)
  else (jittered self attempt 0, w).

Definition undefined_error : Error := mkError "" None None.

(** The [for (let attempt = 1; attempt <= this.maxRetries; attempt++)] loop
    of [execute]; [remaining] counts the iterations still allowed by the loop
    condition, so running out of it is the loop exit [throw lastError]. *)
Fixpoint retry_loop {A} (self : RetryMechanism) (fn : Task A)
    (remaining : nat) (attempt : Z) (lastError : Error) (w : World)
  : Settled A * World :=
  match remaining with
  | O => (Rejected lastError, w)
  | S remaining' =>
      let '(r, w1) := fn w in
      match r with
      | Fulfilled v => (Fulfilled v, w1)
      | Rejected error =>
          if (attempt =? maxRetries self)
             || negb (IntegrationUtils.isTransientError error)
          then (Rejected error, w1)
          else
            let '(delay, w2) := calculateDelay self attempt w1 in
            retry_loop self fn remaining' (attempt + 1) error (sleep delay w2)
      end
  end.

(** [async execute(fn, context = {})] of the retry mechanism *)
Definition retry_execute {A} (self : RetryMechanism) (fn : Task A) : Task A :=
  retry_loop self fn (Z.to_nat (maxRetries self)) 1 undefined_error.

(** [const defaultRetryMechanism = new RetryMechanism()] *)
Definition defaultRetryMechanism : RetryMechanism :=
  new_RetryMechanism (mkRetryOptions None None None None).

(** [getCircuitBreaker(serviceName, options)] on the module-level
    [circuitBreakers] map: the instance is created on first use. *)
Definition getCircuitBreaker (serviceName : string) (options : BreakerOptions)
    (circuitBreakers : gmap string CircuitBreaker)
  : CircuitBreaker * gmap string CircuitBreaker :=
  match circuitBreakers !! serviceName with
  | Some cb => (cb, circuitBreakers)
  | None =>
      let cb := new_CircuitBreaker options in
      (cb, <[serviceName := cb]> circuitBreakers)
  end.

End ErrorHandling.


(** ** Search results *)

(** The [tags] property: an array of strings, or a plain string (the empty
    string when absent). *)
Inductive Tags :=
| TagList (l : list string)
| TagText (s : string).

(** The [updated] property as [new Date(updated)] sees it. *)
Inductive Updated :=
| NoDate                        (* [undefined], [null] or [''] : falsy *)
| Unparsable (raw : string)     (* truthy, but [new Date(raw)] is an Invalid Date *)
| Timestamp (ms : Z).           (* [new Date(updated).getTime() = ms] *)

(** JS numbers of the scorer: a real, or [NaN]. *)
Inductive num :=
| NaN
| Fin (r : R).

Record SearchResult := mkResult {
  title : string;
  description : string;
  tags : Tags;
  type_ : string;
  status : string;
  comments : string;
  url : string;
  source : string;
  updated : Updated;
  relevanceScore : option num    (* [None]: the property is not set *)
}.

(** [Array.prototype.sort(compareFn)]: a stable sort, here by insertion.
    [after a b] stands for [compareFn(a, b) > 0]. *)
Fixpoint sort_insert {A} (after : A -> A -> bool) (x : A) (l : list A) : list A :=
  match l with
  | [] => [x]
  | y :: l' => if after x y then y :: sort_insert after x l' else x :: l
  end.

Fixpoint js_sort {A} (after : A -> A -> bool) (l : list A) : list A :=
  match l with
  | [] => []
  | x :: l' => sort_insert after x (js_sort after l')
  end.

(** ** relevance-scorer.js *)

Module RelevanceScorer.

Local Open Scope R_scope.

Definition k1 : R := 12 / 10.
Definition b : R := 75 / 100.
Definition recencyDecayPerDay : R := 1 / 100.
Definition minScore : R := 1 / 10.

Definition STOP_WORDS : list string :=
  ["the"; "a"; "an"; "and"; "or"; "but"; "in"; "on"; "at"; "to"; "for";
   "of"; "with"; "by"; "is"; "are"; "was"; "were"; "be"; "been"; "have";
   "has"; "had"; "do"; "does"; "did"; "will"; "would"; "could"; "should"]%string.

(** [toLowerCase] on ASCII *)
Definition lower (c : ascii) : ascii :=
  let n := nat_of_ascii c in
  if ((65 <=? n) && (n <=? 90))%nat then ascii_of_nat (n + 32) else c.

(** [\w] *)
Definition is_word (c : ascii) : bool :=
  let n := nat_of_ascii c in
  (((48 <=? n) && (n <=? 57)) || ((65 <=? n) && (n <=? 90))
   || ((97 <=? n) && (n <=? 122)) || (n =? 95))%nat.

Fixpoint map_string (f : ascii -> ascii) (s : string) : string :=
  match s with
  | EmptyString => EmptyString
  | String c s' => String (f c) (map_string f s')
  end.

(** [.replace(/[^\w\s]/g, ' ')] *)
Definition strip_punctuation (c : ascii) : ascii :=
  if is_word c || JS.is_space c then c else " "%char.

(** [.split(/\s+/)]: [cur] is the piece being read, in reverse; [in_ws] tells
    that the previous character was part of a separator. *)
Fixpoint split_ws (cur : string) (in_ws : bool) (s : string) : list string :=
  match s with
  | EmptyString => [JS.rev_string EmptyString cur]
  | String c s' =>
      if JS.is_space c then
        if in_ws then split_ws cur true s'
        else JS.rev_string EmptyString cur :: split_ws EmptyString true s'
      else split_ws (String c cur) false s'
  end.

Definition keep_token (token : string) : bool :=
  (1 <? String.length token)%nat
  && negb (IntegrationUtils.includes_string STOP_WORDS token).

(** [tokenize(text)] *)
Definition tokenize (text : string) : list string :=
  if String.eqb text "" then []
  else
    List.filter keep_token
      (split_ws EmptyString false
         (map_string strip_punctuation (map_string lower text))).

(** [termCounts[token]] is read from a plain object, so the two lower-case
    names every object inherits are never numeric counts. *)
Definition inherited_key (term : string) : bool :=
  String.eqb term "constructor" || String.eqb term "__proto__".

Definition count_token (term : string) (docTokens : list string) : nat :=
  List.length (List.filter (String.eqb term) docTokens).

(** [termCounts[term] || 0], as far as [tf > 0] can tell. *)
Definition term_frequency (term : string) (docTokens : list string) : nat :=
  if inherited_key term then O else count_token term docTokens.

(** [allDocTokens.filter(tokens => tokens.includes(term)).length] *)
Definition docsWithTerm (term : string) (allDocTokens : list (list string)) : nat :=
  List.length
    (List.filter (fun tokens => IntegrationUtils.includes_string tokens term)
       allDocTokens).

Definition idf (term : string) (allDocTokens : list (list string)) : R :=
  ln ((INR (List.length allDocTokens) - INR (docsWithTerm term allDocTokens) + 5 / 10)
      / (INR (docsWithTerm term allDocTokens) + 5 / 10)).

(** What one query term adds to [score]. *)
Definition term_score (term : string) (docTokens : list string)
    (allDocTokens : list (list string)) (avgDocLength : R) : R :=
  let tf := term_frequency term docTokens in
  if (0 <? tf)%nat then
    if (docsWithTerm term allDocTokens =? 0)%nat then 0
    else
      let numerator := INR tf * (k1 + 1) in
      let denominator :=
        INR tf + k1 * (1 - b + b * (INR (List.length docTokens) / avgDocLength)) in
      idf term allDocTokens * (numerator / denominator)
  else 0.

(** [calculateBM25Score(queryTerms, docTokens, allDocTokens, avgDocLength)] *)
Definition calculateBM25Score (queryTerms docTokens : list string)
    (allDocTokens : list (list string)) (avgDocLength : R) : R :=
  if (List.length docTokens =? 0)%nat then 0
  else
    fold_left
      (fun score term => score + term_score term docTokens allDocTokens avgDocLength)
      queryTerms 0.

Fixpoint join (sep : string) (l : list string) : string :=
  match l with
  | [] => EmptyString
  | [s] => s
  | s :: l' => String.append s (String.append sep (join sep l'))
  end.

(** [extractSearchableText(result)] *)
Definition extractSearchableText (result : SearchResult) : list string :=
  tokenize
    (join " "
       [title result; description result;
        match tags result with
        | TagList l => join " " l
        | TagText s => s
        end;
        type_ result; status result; comments result]).

(** Arithmetic of JS numbers: [NaN] is contagious. *)
Definition num_lift2 (f : R -> R -> R) (x y : num) : num :=
  match x, y with
  | Fin a, Fin c => Fin (f a c)
  | _, _ => NaN
  end.

Definition num_lift1 (f : R -> R) (x : num) : num :=
  match x with
  | Fin a => Fin (f a)
  | NaN => NaN
  end.

Definition Math_max := num_lift2 Rmax.
Definition Math_min := num_lift2 Rmin.
Definition Math_exp := num_lift1 exp.
Definition num_mul := num_lift2 Rmult.
Definition num_sub := num_lift2 Rminus.
Definition num_div := num_lift2 Rdiv.
Definition num_neg := num_lift1 Ropp.

(** The time value of [new Date(updatedDate)] for a truthy argument. *)
Definition time_value (updatedDate : Updated) : num :=
  match updatedDate with
  | Timestamp ms => Fin (IZR ms)
  | _ => NaN
  end.

(** [calculateRecencyBoost(updatedDate)], evaluated when [new Date()] is
    [now].  Neither [new Date(x)] nor the arithmetic throws, so the [catch]
    branch is never entered. *)
Definition calculateRecencyBoost (now : Z) (updatedDate : Updated) : num :=
  match updatedDate with
  | NoDate => Fin (5 / 10)
  | _ =>
      let daysDiff :=
        num_div (num_sub (Fin (IZR now)) (time_value updatedDate))
                (Fin (1000 * 60 * 60 * 24)) in
      let boost := Math_exp (num_mul (num_neg daysDiff) (Fin recencyDecayPerDay)) in
      Math_max (Fin (1 / 10)) (Math_min (Fin 1) boost)
  end.

(** [calculateUserBoost(result, userContext)] *)
Definition calculateUserBoost (result : SearchResult) : num := Fin 1.

Definition set_relevanceScore (score : num) (result : SearchResult) : SearchResult :=
  mkResult (title result) (description result) (tags result) (type_ result)
           (status result) (comments result) (url result) (source result)
           (updated result) (Some score).

Definition score_of (result : SearchResult) : num :=
  match relevanceScore result with
  | Some s => s
  | None => NaN
  end.

(** [(a, b) => b.relevanceScore - a.relevanceScore] is positive. *)
Definition by_score_after (x y : SearchResult) : bool :=
  match num_sub (score_of y) (score_of x) with
  | Fin d => if Rlt_dec 0 d then true else false
  | NaN => false
  end.

Definition sum_lengths (docTokens : list (list string)) : nat :=
  fold_left (fun sum tokens => (sum + List.length tokens)%nat) docTokens O.

(** The callback of [results.map((result, index) => ...)] *)
Definition score_result (now : Z) (queryTerms : list string)
    (allDocTokens : list (list string)) (avgDocLength : R)
    (result : SearchResult) (tokens : list string) : SearchResult :=
  let bm25Score := calculateBM25Score queryTerms tokens allDocTokens avgDocLength in
  let recencyBoost := calculateRecencyBoost now (updated result) in
  let userBoost := calculateUserBoost result in
  let relevanceScore := num_mul (num_mul (Fin bm25Score) recencyBoost) userBoost in
  set_relevanceScore (Math_max (Fin minScore) relevanceScore) result.

Fixpoint map2 {A B C} (f : A -> B -> C) (l : list A) (l' : list B) : list C :=
  match l, l' with
  | x :: l, y :: l' => f x y :: map2 f l l'
  | _, _ => []
  end.

(** [calculateRelevanceScores(results, query, userContext)] *)
Definition calculateRelevanceScores (now : Z) (results : list SearchResult)
    (query : string) : list SearchResult :=
  if (List.length results =? 0)%nat then []
  else if String.eqb query "" then results
  else
    let queryTerms := tokenize query in
    if (List.length queryTerms =? 0)%nat then results
    else
      let docTokens := List.map extractSearchableText results in
      let avgDocLength := INR (sum_lengths docTokens) / INR (List.length docTokens) in
      let scoredResults :=
        map2 (score_result now queryTerms docTokens avgDocLength) results docTokens in
      js_sort by_score_after scoredResults.

End RelevanceScorer.

(** ** Providers *)

(** A stored integration configuration: the [enabled] property ([None] when
    the object has no such property) and the string-valued settings. *)
Record Config := mkConfig {
  enabled : option JS.value;
  settings : gmap string string
}.

(** What a provider's search resolves to. *)
Inductive Value :=
| VArray (items : list SearchResult)         (* an array of results *)
| VWithResults (items : list SearchResult)   (* [{ results: [...] }] *)
| VOther.                                    (* anything else *)

(** A provider's [searchHandler(query, config)].  The remote service is
    described by what its [n]-th invocation (counting from 0) settles to and
    after how many milliseconds. *)
Definition Handler := string -> Config -> nat -> Settled Value * Z.

Record IntegrationDefinition := mkDefinition {
  id : string;
  sourceName : string;
  filterKey : string;
  resultExtractor : option (Value -> Error + list SearchResult);
  validateSearchConfig : option (Config -> option string);
  searchHandler : Handler
}.

Definition invocations (provider : string) (w : World) : nat :=
  List.length (List.filter (String.eqb provider) (calls w)).

(** The thunk [() => definition.searchHandler(trimmedQuery, integrationConfig)] *)
Definition call_handler (definition : IntegrationDefinition) (query : string)
    (config : Config) : Task Value :=
  fun w =>
    let '(r, latency) :=
      searchHandler definition query config (invocations (id definition) w) in
    (r, mkWorld (clock w + Z.max 0 latency) (id definition :: calls w)
                (entropy w) (draws w)).

(** ** integrations/registry.js *)

Module Registry.

Local Open Scope string_scope.

(** [validators.hasRequiredFields(config, fields)] *)
Definition hasRequiredFields (config : Config) (fields : list string) : bool :=
  forallb
    (fun field =>
       match settings config !! field with
       | Some s => negb (String.eqb s "") && negb (String.eqb (JS.trim s) "")
       | None => false
       end)
    fields.

Definition fieldNames (field : string) : string :=
  if String.eqb field "baseUrl" then "Base URL"
  else if String.eqb field "apiToken" then "API Token"
  else if String.eqb field "email" then "Email"
  else if String.eqb field "organization" then "Organization"
  else if String.eqb field "project" then "Project"
  else if String.eqb field "personalAccessToken" then "Personal Access Token"
  else field.

Definition is_missing (config : Config) (field : string) : bool :=
  match settings config !! field with
  | Some s => String.eqb s "" || String.eqb (JS.trim s) ""
  | None => true
  end.

(** [validators.formatMissingFieldsError(config, integrationName, fields)] *)
Definition formatMissingFieldsError (config : Config) (integrationName : string)
    (fields : list string) : string :=
  integrationName ++ " configuration is incomplete. Please provide: "
  ++ RelevanceScorer.join ", "
       (List.map fieldNames (List.filter (is_missing config) fields))
  ++ ".".

(** The [validateSearchConfig] shared by the four integrations. *)
Definition requireFields (integrationName : string) (fields : list string)
    (config : Config) : option string :=
  if negb (hasRequiredFields config fields)
  then Some (formatMissingFieldsError config integrationName fields)
  else None.

(** [(value) => (Array.isArray(value) ? value : [])] *)
Definition arrayExtractor (value : Value) : Error + list SearchResult :=
  match value with
  | VArray items => inr items
  | _ => inr []
  end.

(** Asana's extractor, which also accepts [{ results: [...] }]. *)
Definition asanaExtractor (value : Value) : Error + list SearchResult :=
  match value with
  | VArray items => inr items
  | VWithResults items => inr items
  | VOther => inr []
  end.

(** [module.exports = Object.freeze(integrationRegistry)], in key order; the
    four search functions are the network clients. *)
Definition integrationRegistry (jiraSearch confluenceSearch azureSearch searchAsana : Handler)
  : list IntegrationDefinition :=
  [ mkDefinition "jira" "Jira" "jira" (Some arrayExtractor)
      (Some (requireFields "Jira" ["baseUrl"; "apiToken"])) jiraSearch;
    mkDefinition "confluence" "Confluence" "confluence" (Some arrayExtractor)
      (Some (requireFields "Confluence" ["baseUrl"; "apiToken"])) confluenceSearch;
    mkDefinition "azureDevops" "Azure DevOps" "azureDevops" (Some arrayExtractor)
      (Some (requireFields "Azure DevOps"
               ["organization"; "project"; "personalAccessToken"])) azureSearch;
    mkDefinition "asana" "Asana" "asana" (Some asanaExtractor)
      (Some (requireFields "Asana" ["personalAccessToken"])) searchAsana ].

End Registry.

(** ** main.js: the 'search' handler *)

Module Main.

Record TaskEntry := mkTask {
  task_source : string;
  task_extract : Value -> Error + list SearchResult;
  task_promise : Settled Value
}.

(** The reply sent on ['search-results']. *)
Record Reply := mkReply {
  results : list SearchResult;
  errors : list (string * string)     (* [{ source, error }] *)
}.

(** [results], [errors], [tasks] and the shared state while the loop over
    the registry runs. *)
Record Dispatch := mkDispatch {
  tasks : list TaskEntry;
  validation_errors : list (string * string);
  circuitBreakers : gmap string ErrorHandling.CircuitBreaker;
  world : World
}.

Definition is_filter_token (entry : JS.value) : option string :=
  match entry with
  | JS.Str s => if (0 <? String.length (JS.trim s))%nat then Some s else None
  | _ => None
  end.

(** [Array.isArray(activeFilters) ? activeFilters.filter(...) : []], where
    [None] stands for a value that is not an array. *)
Definition safeFilters (activeFilters : option (list JS.value)) : list string :=
  match activeFilters with
  | Some l => omap is_filter_token l
  | None => []
  end.

(** [integrationConfig.enabled !== undefined ? Boolean(integrationConfig.enabled) : true] *)
Definition isEnabled (integrationConfig : Config) : bool :=
  match enabled integrationConfig with
  | None | Some JS.Undefined => true
  | Some v => JS.truthy v
  end.

(** [safeFilters.length === 0 || safeFilters.includes(definition.filterKey)] *)
Definition filterAllowed (filters : list string) (definition : IntegrationDefinition)
  : bool :=
  (List.length filters =? 0)%nat
  || IntegrationUtils.includes_string filters (filterKey definition).

(** [definition.validateSearchConfig ? definition.validateSearchConfig(config) : null] *)
Definition validationMessage (definition : IntegrationDefinition)
    (integrationConfig : Config) : option string :=
  match validateSearchConfig definition with
  | Some validate => validate integrationConfig
  | None => None
  end.

(** [if (validationMessage)] *)
Definition message_truthy (m : option string) : bool :=
  match m with
  | Some s => negb (String.eqb s "")
  | None => false
  end.

Definition extractor_of (definition : IntegrationDefinition)
  : Value -> Error + list SearchResult :=
  match resultExtractor definition with
  | Some f => f
  | None => Registry.arrayExtractor
  end.

Definition breaker_options : ErrorHandling.BreakerOptions :=
  ErrorHandling.mkBreakerOptions (Some 3) (Some 30000) (Some 60000).

(** [integrations[id] || {}] *)
Definition config_of (integrations : gmap string Config) (provider : string) : Config :=
  match integrations !! provider with
  | Some c => c
  | None => mkConfig None ∅
  end.

(** The promise pushed on [tasks]:
    [circuitBreaker.execute(() => definition.searchHandler(trimmedQuery, integrationConfig), ...)] *)
Definition search_task (definition : IntegrationDefinition) (trimmedQuery : string)
    (integrationConfig : Config) (circuitBreaker : ErrorHandling.CircuitBreaker)
    (w : World) : Settled Value * ErrorHandling.CircuitBreaker * World :=
  ErrorHandling.execute circuitBreaker
    (call_handler definition trimmedQuery integrationConfig) w.

(** One iteration of [for (const [id, definition] of Object.entries(integrationRegistry))].
    Every task starts at the instant [t0] of the loop; the clock kept in the
    accumulator is the latest settlement so far.  A task is run to settlement
    on the spot, which is sound because it only touches the breaker and the
    service of its own provider. *)
Definition dispatch_one (t0 : Z) (trimmedQuery : string) (filters : list string)
    (integrations : gmap string Config) (acc : Dispatch)
    (definition : IntegrationDefinition) : Dispatch :=
  let integrationConfig := config_of integrations (id definition) in
  if negb (isEnabled integrationConfig) || negb (filterAllowed filters definition)
  then acc
  else
    let message := validationMessage definition integrationConfig in
    if message_truthy message then
      mkDispatch (tasks acc)
        (validation_errors acc ++ [(sourceName definition, default ""%string message)])
        (circuitBreakers acc) (world acc)
    else
      let '(circuitBreaker, breakers1) :=
        ErrorHandling.getCircuitBreaker (id definition) breaker_options
          (circuitBreakers acc) in
      let w0 := world acc in
      let '(promise, circuitBreaker', w1) :=
        search_task definition trimmedQuery integrationConfig circuitBreaker
          (mkWorld t0 (calls w0) (entropy w0) (draws w0)) in
      mkDispatch
        (tasks acc
         ++ [mkTask (sourceName definition) (extractor_of definition) promise])
        (validation_errors acc)
        (<[id definition := circuitBreaker']> breakers1)
        (mkWorld (Z.max (clock w0) (clock w1)) (calls w1) (entropy w1) (draws w1)).

Definition build_tasks (integrationRegistry : list IntegrationDefinition)
    (trimmedQuery : string) (filters : list string)
    (integrations : gmap string Config)
    (breakers : gmap string ErrorHandling.CircuitBreaker) (w : World) : Dispatch :=
  fold_left (dispatch_one (clock w) trimmedQuery filters integrations)
    integrationRegistry (mkDispatch [] [] breakers w).

(** The comparator of [sortResultsByDate] is positive. *)
Definition by_date_after (a b : SearchResult) : bool :=
  match updated a, updated b with
  | Timestamp ta, Timestamp tb => 0 <? tb - ta
  | Timestamp _, _ => false
  | _, Timestamp _ => true
  | _, _ => false
  end.

(** [sortResultsByDate(results)] *)
Definition sortResultsByDate (results : list SearchResult) : list SearchResult :=
  js_sort by_date_after results.

Section Search.

Variable sanitizeErrorMessage : string -> string -> string.
Variable integrationRegistry : list IntegrationDefinition.
(** [configs.app.get('enableBM25Scoring', true)] *)
Variable enableBM25Scoring : bool.

(** The callback of [settled.forEach((s, idx) => ...)] *)
Definition collect_one (acc : Reply) (t : TaskEntry) : Reply :=
  let failed reason :=
    mkReply (results acc)
      (errors acc
       ++ [(task_source t,
            IntegrationUtils.handleApiError sanitizeErrorMessage reason (task_source t))]) in
  match task_promise t with
  | Fulfilled value =>
      match task_extract t value with
      | inr arr => mkReply (results acc ++ arr) (errors acc)
      | inl e => failed e
      end
  | Rejected reason => failed reason
  end.

Definition collect (d : Dispatch) : Reply :=
  fold_left collect_one (tasks d) (mkReply [] (validation_errors d)).

(** Ranking of the merged results, at the instant [now]. *)
Definition rank (now : Z) (trimmedQuery : string) (merged : list SearchResult)
  : list SearchResult :=
  if enableBM25Scoring && (0 <? List.length merged)%nat
  then RelevanceScorer.calculateRelevanceScores now merged trimmedQuery
  else sortResultsByDate merged.

Definition rejection (text : string) : Reply :=
  mkReply [] [("SearchSync"%string, text)].

(** [ipcMain.on('search', async (event, query, activeFilters = []) => ...)].
    [integrations] is what [getIntegrationsWithSecrets()] settles to. *)
Definition search (query : JS.value) (activeFilters : option (list JS.value))
    (integrations : Settled (gmap string Config))
    (breakers : gmap string ErrorHandling.CircuitBreaker) (w : World)
  : Reply * gmap string ErrorHandling.CircuitBreaker * World :=
  match query with
  | JS.Str q =>
      let trimmedQuery := JS.trim q in
      if String.eqb trimmedQuery "" then
        (rejection "Search query cannot be empty.", breakers, w)
      else
        match integrations with
        | Rejected _ =>
            (rejection "Secure credential storage is unavailable.", breakers, w)
        | Fulfilled configs =>
            let d :=
              build_tasks integrationRegistry trimmedQuery
                (safeFilters activeFilters) configs breakers w in
            let merged := collect d in
            (mkReply (rank (clock (world d)) trimmedQuery (results merged))
                     (errors merged),
             circuitBreakers d, world d)
        end
  | _ => (rejection "Invalid search query received.", breakers, w)
  end.

End Search.

End Main.

(** ** Vocabulary of the properties *)

Module Spec.

Import ErrorHandling.

(** The breakers a program can hold: a fresh instance, changed only by the
    three places where [execute] writes to it, in any interleaving of the
    calls in flight. *)
Inductive reachable : CircuitBreaker -> Prop :=
| reach_new options : reachable (new_CircuitBreaker options)
| reach_gate now self self' :
    reachable self -> gate now self = inr self' -> reachable self'
| reach_success self : reachable self -> reachable (onSuccess self)
| reach_failure now self : reachable self -> reachable (onFailure now self).

(** Failures recorded one after the other, at the given instants. *)
Definition record_failures (times : list Z) (self : CircuitBreaker) : CircuitBreaker :=
  fold_left (fun cb now => onFailure now cb) times self.

(** [counted name fn] is [fn] instrumented with an invocation counter: each
    invocation adds [name] to the call log. *)
Definition counted {A} (name : string) (fn : Task A) : Task A :=
  fun w => fn (mkWorld (clock w) (name :: calls w) (entropy w) (draws w)).

(** A provider eligible for dispatch: enabled, allowed by the filters, and
    with a [validateSearchConfig] that returns [null]. *)
Definition eligible (filters : list string) (integrations : gmap string Config)
    (definition : IntegrationDefinition) : bool :=
  let integrationConfig := Main.config_of integrations (id definition) in
  Main.isEnabled integrationConfig
  && Main.filterAllowed filters definition
  && match Main.validationMessage definition integrationConfig with
     | None => true
     | Some _ => false
     end.

(** The results a settled task contributes. *)
Definition fulfilled_items (t : Main.TaskEntry) : list SearchResult :=
  match Main.task_promise t with
  | Fulfilled value =>
      match Main.task_extract t value with
      | inr arr => arr
      | inl _ => []
      end
  | Rejected _ => []
  end.

(** [r'] is [r], possibly with a [relevanceScore] assigned. *)
Definition scored_copy (r r' : SearchResult) : Prop :=
  r' = r \/ exists s, r' = RelevanceScorer.set_relevanceScore s r.

Definition sample_result : SearchResult :=
  mkResult "Deploy pipeline fails" "" (TagText "") "issue" "open" ""
           "https://example.atlassian.net/browse/OPS-1" "Jira"
           (Timestamp 1700000000000) None.

Definition service_unavailable : Error :=
  mkError "Request failed with status code 503" None
          (Some (Http.mkResponse 503 None)).

(** A service that answers 503 to the first request and succeeds from the
    second request on. *)
Definition flaky_search : Handler :=
  fun _ _ n =>
    match n with
    | O => (Rejected service_unavailable, 120)
    | S _ => (Fulfilled (VArray [sample_result]), 80)
    end.

Definition steady_search : Handler :=
  fun _ _ _ => (Fulfilled (VArray [sample_result]), 80).

Definition flaky_jira : IntegrationDefinition :=
  mkDefinition "jira" "Jira" "jira" (Some Registry.arrayExtractor)
    (Some (Registry.requireFields "Jira" ["baseUrl"; "apiToken"]%string))
    flaky_search.

Definition jira_settings : gmap string string :=
  <["baseUrl" := "https://example.atlassian.net"]>
    (<["apiToken" := "s3cr3t"]> ∅).

(** A stored configuration without an [enabled] property. *)
Definition jira_config : Config := mkConfig None jira_settings.

(** The registry with a flaky Jira and three healthy services. *)
Definition sample_registry : list IntegrationDefinition :=
  Registry.integrationRegistry flaky_search steady_search steady_search steady_search.

(** Jira and Confluence are configured, Azure DevOps lacks its credentials,
    Asana is switched off. *)
Definition sample_configs : gmap string Config :=
  <["jira" := jira_config]>
    (<["confluence" := mkConfig (Some (JS.Bool true)) jira_settings]>
       (<["azureDevops" := mkConfig (Some (JS.Bool true)) ∅]>
          (<["asana" := mkConfig (Some (JS.Bool false))
                          (<["personalAccessToken" := "1/2345"]> ∅)]> ∅))).

(** [score] is a number not below [x]; [NaN] and a missing score are not. *)
Definition at_least (x : R) (score : option num) : Prop :=
  match score with
  | Some (Fin r) => (x <= r)%R
  | _ => False
  end.

(** A result whose [updated] property is the string ['not-a-date']. *)
Definition stale_result : SearchResult :=
  mkResult "Deploy notes" "" (TagText "") "page" "current" ""
           "https://example.atlassian.net/wiki/x/1" "Confluence"
           (Unparsable "not-a-date") None.

(** A service that is down. *)
Definition failing_search : Handler :=
  fun _ _ _ => (Rejected service_unavailable, 100).

Definition failing_jira : IntegrationDefinition :=
  mkDefinition "jira" "Jira" "jira" (Some Registry.arrayExtractor)
    (Some (Registry.requireFields "Jira" ["baseUrl"; "apiToken"]%string))
    failing_search.

(** [n] searches in a row through the breaker of one provider; the answer of
    the last one is returned. *)
Fixpoint repeat_search (n : nat) (definition : IntegrationDefinition)
    (cb : ErrorHandling.CircuitBreaker) (w : World)
  : option (Settled Value) * ErrorHandling.CircuitBreaker * World :=
  match n with
  | O => (None, cb, w)
  | S n' =>
      let '(_, cb1, w1) := repeat_search n' definition cb w in
      let '(r, cb2, w2) := Main.search_task definition "deploy" jira_config cb1 w1 in
      (Some r, cb2, w2)
  end.

(** A world at instant 0 in which nothing was called yet and [Math.random]
    keeps returning 0. *)
Definition quiet_world : World := mkWorld 0 [] (fun _ => 0%Q) O.

End Spec.

(** ** utils/error-handling.js, continued: error boundary and aggregation *)

Module ErrorBoundaries.

(** An [ErrorBoundary] instance.  The handlers are asynchronous functions of
    the error; the execution context they also receive (correlation id and
    timestamp) is not modelled. *)
Record ErrorBoundary (A : Type) := mkBoundary {
  onError : Error -> Task unit;
  fallback : option (Error -> Task A)
}.
Arguments mkBoundary {A} onError fallback.
Arguments onError {A} e.
Arguments fallback {A} e.

Record BoundaryOptions (A : Type) := mkBoundaryOptions {
  opt_onError : option (Error -> Task unit);
  opt_fallback : option (Error -> Task A)
}.
Arguments mkBoundaryOptions {A} opt_onError opt_fallback.
Arguments opt_onError {A} b.
Arguments opt_fallback {A} b.

(** [defaultErrorHandler(error, context)]: it only logs. *)
Definition defaultErrorHandler : Error -> Task unit :=
  fun _ w => (Fulfilled tt, w).

(** [constructor(options = {})] *)
Definition new_ErrorBoundary {A} (options : BoundaryOptions A) : ErrorBoundary A :=
  {| onError := match opt_onError options with
                | Some h => h
                | None => defaultErrorHandler
                end;
     fallback := opt_fallback options |}.

(** [async execute(fn, context = {})] of the error boundary *)
Definition boundary_execute {A} (self : ErrorBoundary A) (fn : Task A) : Task A :=
  fun w =>
    let '(r, w1) := fn w in
    match r with
    | Fulfilled v => (Fulfilled v, w1)
    | Rejected error =>
        let '(handled, w2) := onError self error w1 in
        match handled with
        | Rejected handlerError => (Rejected handlerError, w2)
        | Fulfilled _ =>
            match fallback self with
            | Some recover =>
                let '(r', w3) := recover error w2 in
                match r' with
                | Fulfilled v => (Fulfilled v, w3)
                | Rejected _ => (Rejected error, w3)
                end
            | None => (Rejected error, w2)
            end
        end
    end.

(** What [aggregateErrors] returns: [null], one of the given errors, or a new
    error named ['AggregateError'] with its [message] and [errors]. *)
Inductive Aggregated :=
| NoError
| TheError (e : Error)
| AggregateError (message : string) (errors : list Error).

(** [[...new Set(messages)]]: the distinct messages in order of first
    occurrence; [seen] are the ones met so far, newest first. *)
Fixpoint unique_from (seen : list string) (messages : list string) : list string :=
  match messages with
  | [] => []
  | m :: rest =>
      if IntegrationUtils.includes_string seen m then unique_from seen rest
      else m :: unique_from (m :: seen) rest
  end.

Definition newline : string := String (ascii_of_nat 10) EmptyString.

(** [`${n}`] for a length *)
Definition decimal (n : nat) : string := NilEmpty.string_of_uint (Nat.to_uint n).

(** [errors.map(e => e.message).filter(Boolean)] *)
Definition nonempty_messages (errors : list Error) : list string :=
  List.filter (fun m => negb (String.eqb m "")) (List.map message errors).

(** [aggregateErrors(errors)] *)
Definition aggregateErrors (errors : list Error) : Aggregated :=
  match errors with
  | [] => NoError
  | [e] => TheError e
  | _ =>
      let uniqueMessages := unique_from [] (nonempty_messages errors) in
      AggregateError
        (String.append "Multiple errors occurred ("
           (String.append (decimal (List.length errors))
              (String.append "):"
                 (String.append newline
                    (RelevanceScorer.join newline uniqueMessages)))))
        errors
  end.

End ErrorBoundaries.

(** ** Further vocabulary of the properties *)

Module Vocabulary.

(** The characters a token is made of: [a-z0-9_]. *)
Definition token_char (c : ascii) : bool :=
  let n := nat_of_ascii c in
  (((48 <=? n) && (n <=? 57)) || ((97 <=? n) && (n <=? 122)) || (n =? 95))%nat.

Fixpoint string_forallb (p : ascii -> bool) (s : string) : bool :=
  match s with
  | EmptyString => true
  | String c s' => p c && string_forallb p s'
  end.

(** A result whose [updated] property parses to a date. *)
Definition dated (r : SearchResult) : bool :=
  match updated r with
  | Timestamp _ => true
  | _ => false
  end.

(** The result without its [relevanceScore] property. *)
Definition clear_score (r : SearchResult) : SearchResult :=
  mkResult (title r) (description r) (tags r) (type_ r) (status r) (comments r)
           (url r) (source r) (updated r) None.

(** Order on JS numbers that are not [NaN]. *)
Definition num_le (x y : num) : Prop :=
  match x, y with
  | Fin a, Fin c => (a <= c)%R
  | _, _ => False
  end.

(** The provider passes the eligibility test and its local validation, so
    the loop pushes a task for it. *)
Definition dispatched (filters : list string) (integrations : gmap string Config)
    (definition : IntegrationDefinition) : bool :=
  let integrationConfig := Main.config_of integrations (id definition) in
  Main.isEnabled integrationConfig
  && Main.filterAllowed filters definition
  && negb (Main.message_truthy (Main.validationMessage definition integrationConfig)).

(** The provider passes the eligibility test (enabled and allowed by the
    filters). *)
Definition candidate (filters : list string) (integrations : gmap string Config)
    (definition : IntegrationDefinition) : bool :=
  let integrationConfig := Main.config_of integrations (id definition) in
  Main.isEnabled integrationConfig && Main.filterAllowed filters definition.

(** The task settled with a value its extractor accepted. *)
Definition task_ok (t : Main.TaskEntry) : bool :=
  match Main.task_promise t with
  | Fulfilled value =>
      match Main.task_extract t value with
      | inr _ => true
      | inl _ => false
      end
  | Rejected _ => false
  end.

(** A service whose requests number [n0], ..., [n0 + k - 1] fail with a
    transient error. *)
Definition transient_failures (h : Handler) (q : string) (cfg : Config)
    (n0 k : nat) : Prop :=
  forall i, (i < k)%nat ->
    exists e latency,
      h q cfg (n0 + i)%nat = (Rejected e, latency)
      /\ IntegrationUtils.isTransientError e = true.

(** [a] may stand before [b] in a list sorted by date: parsable dates
    first, newest first. *)
Definition newer_first (a b : SearchResult) : Prop :=
  match updated a, updated b with
  | Timestamp ta, Timestamp tb => tb <= ta
  | Timestamp _, _ => True
  | _, Timestamp _ => False
  | _, _ => True
  end.

(** The sum of [g] over the terms of a query. *)
Definition sum_scores (g : string -> R) (l : list string) : R :=
  fold_right (fun u acc => (g u + acc)%R) 0%R l.

(** The [updated] property is missing or parses to a date. *)
Definition parsable (r : SearchResult) : Prop :=
  forall raw, updated r <> Unparsable raw.

(** [onFailure()] with its two clock reads told apart: [t_last] is what
    [Date.now()] returns for [lastFailure], [t_next] what it returns, after
    the state change, for [nextAttempt]. *)
Definition onFailure_at (t_last t_next : Z) (self : ErrorHandling.CircuitBreaker)
  : ErrorHandling.CircuitBreaker :=
  let self1 :=
    ErrorHandling.mkBreaker
      (ErrorHandling.threshold self) (ErrorHandling.timeout self)
      (ErrorHandling.resetTimeout self) (ErrorHandling.failureCount self + 1)
      (Some t_last) (ErrorHandling.state self) (ErrorHandling.nextAttempt self) in
  if ErrorHandling.threshold self1 <=? ErrorHandling.failureCount self1 then
    let self2 := ErrorHandling.setState ErrorHandling.OPEN self1 in
    ErrorHandling.mkBreaker
      (ErrorHandling.threshold self2) (ErrorHandling.timeout self2)
      (ErrorHandling.resetTimeout self2) (ErrorHandling.failureCount self2)
      (ErrorHandling.lastFailure self2) (ErrorHandling.state self2)
      (Some (t_next + ErrorHandling.resetTimeout self2))
  else self1.

(** The breakers a program can hold when the two clock reads of a recorded
    failure are related by [ticks] (equal if the clock stands still between
    them, [<=] if it does not run backwards, any pair if nothing is known). *)
Inductive reachable_by (ticks : Z -> Z -> Prop) : ErrorHandling.CircuitBreaker -> Prop :=
| reach_by_new options :
    reachable_by ticks (ErrorHandling.new_CircuitBreaker options)
| reach_by_gate now self self' :
    reachable_by ticks self -> ErrorHandling.gate now self = inr self' ->
    reachable_by ticks self'
| reach_by_success self :
    reachable_by ticks self -> reachable_by ticks (ErrorHandling.onSuccess self)
| reach_by_failure t_last t_next self :
    ticks t_last t_next -> reachable_by ticks self ->
    reachable_by ticks (onFailure_at t_last t_next self).

(** An entry of [activeFilters] that is no filter token: not a string, or a
    blank one. *)
Definition blank_entry (entry : JS.value) : bool :=
  match entry with
  | JS.Str s => String.eqb (JS.trim s) ""
  | _ => true
  end.

(** The entry is the filter token [key]. *)
Definition names_filter (key : string) (entry : JS.value) : bool :=
  match entry with
  | JS.Str s => String.eqb s key && negb (String.eqb (JS.trim s) "")
  | _ => false
  end.

(** A provider matches the active filters, blank and non-string entries
    being discarded: no entry is a filter token (in particular there is no
    entry, or [activeFilters] is not an array), or one entry is the
    provider's filter key. *)
Definition matches_active_filters (activeFilters : option (list JS.value))
    (key : string) : bool :=
  match activeFilters with
  | None => true
  | Some entries => forallb blank_entry entries || existsb (names_filter key) entries
  end.

(** The same with the filter list taken as it is given: it is empty, or one
    of its entries is the provider's filter key. *)
Definition matches_given_filters (activeFilters : list JS.value) (key : string) : bool :=
  match activeFilters with
  | [] => true
  | _ =>
      existsb (fun entry => match entry with
                            | JS.Str s => String.eqb s key
                            | _ => false
                            end) activeFilters
  end.

(** The stored configuration of a provider (none stored: no property). *)
Definition stored_config (configs : gmap string Config) (definition : IntegrationDefinition)
  : Config :=
  default (mkConfig None ∅) (configs !! id definition).

(** The provider is enabled: its [enabled] property is absent, [undefined]
    or truthy. *)
Definition enabled_provider (configs : gmap string Config)
    (definition : IntegrationDefinition) : bool :=
  match enabled (stored_config configs definition) with
  | None => true
  | Some JS.Undefined => true
  | Some flag => JS.truthy flag
  end.

(** The provider has no [validateSearchConfig], or it returns [null]. *)
Definition valid_provider (configs : gmap string Config)
    (definition : IntegrationDefinition) : bool :=
  match validateSearchConfig definition with
  | None => true
  | Some validate =>
      match validate (stored_config configs definition) with
      | None => true
      | Some _ => false
      end
  end.

(** The providers a request is expected to dispatch to. *)
Definition expected_dispatch (activeFilters : option (list JS.value))
    (configs : gmap string Config) (definition : IntegrationDefinition) : bool :=
  enabled_provider configs definition
  && matches_active_filters activeFilters (filterKey definition)
  && valid_provider configs definition.

(** The same with the filter list taken as it is given. *)
Definition expected_dispatch_given (activeFilters : list JS.value)
    (configs : gmap string Config) (definition : IntegrationDefinition) : bool :=
  enabled_provider configs definition
  && matches_given_filters activeFilters (filterKey definition)
  && valid_provider configs definition.

(** The providers a request is expected to reach: enabled and matching the
    active filters, whatever their validation says. *)
Definition expected_candidate (activeFilters : option (list JS.value))
    (configs : gmap string Config) (definition : IntegrationDefinition) : bool :=
  enabled_provider configs definition
  && matches_active_filters activeFilters (filterKey definition).

(** The number of entries of an error list filed under [source]. *)
Definition entries_of (source : string) (errors : list (string * string)) : nat :=
  List.length (List.filter (fun entry => String.eqb source (fst entry)) errors).

(** The number of fulfilled and extracted tasks of [source]. *)
Definition successes_of (source : string) (tasks : list Main.TaskEntry) : nat :=
  List.length
    (List.filter (fun t => String.eqb source (Main.task_source t) && task_ok t) tasks).

End Vocabulary.

(** * Properties *)

(** ** Circuit breaker *)

Section Breaker.

Import ErrorHandling Spec.

Lemma reachable_failureCount_nonneg self :
  reachable self -> 0 <= failureCount self.
Proof.
  induction 1 as [options|now self self' _ IH Hg|self _ IH|now self _ IH].
  - simpl. lia.
  - unfold gate in Hg. destruct (state self) eqn:Hs; try (injection Hg as <-; exact IH).
    destruct (before_next_attempt now self); [discriminate|].
    injection Hg as <-. exact IH.
  - simpl. lia.
  - unfold onFailure. simpl. destruct (_ <=? _); simpl; lia.
Qed.

(** A breaker that is not CLOSED has reached its threshold. *)
Lemma reachable_tripped self :
  reachable self -> state self <> CLOSED -> threshold self <= failureCount self.
Proof.
  induction 1 as [options|now self self' _ IH Hg|self _ IH|now self _ IH]; intros Hs.
  - simpl in Hs. congruence.
  - unfold gate in Hg. destruct (state self) eqn:Hst.
    + injection Hg as <-. congruence.
    + destruct (before_next_attempt now self); [discriminate|].
      injection Hg as <-. simpl. apply IH. congruence.
    + injection Hg as <-. apply IH. congruence.
  - simpl in Hs. congruence.
  - unfold onFailure in *. simpl in *.
    destruct (threshold self <=? failureCount self + 1) eqn:Hle; simpl in *.
    + lia.
    + specialize (IH Hs). lia.
Qed.

Lemma onFailure_threshold now self : threshold (onFailure now self) = threshold self.
Proof. unfold onFailure. simpl. destruct (_ <=? _); reflexivity. Qed.

Lemma onFailure_resetTimeout now self :
  resetTimeout (onFailure now self) = resetTimeout self.
Proof. unfold onFailure. simpl. destruct (_ <=? _); reflexivity. Qed.

Lemma onFailure_failureCount now self :
  failureCount (onFailure now self) = failureCount self + 1.
Proof. unfold onFailure. simpl. destruct (_ <=? _); reflexivity. Qed.

Lemma onFailure_trips now self :
  threshold self <= failureCount self + 1 ->
  state (onFailure now self) = OPEN
  /\ nextAttempt (onFailure now self) = Some (now + resetTimeout self).
Proof.
  intros H. unfold onFailure. simpl.
  destruct (threshold self <=? failureCount self + 1) eqn:Hle; [|lia].
  split; reflexivity.
Qed.

Lemma record_failures_snoc times now self :
  record_failures (times ++ [now]) self = onFailure now (record_failures times self).
Proof. unfold record_failures. rewrite fold_left_app. reflexivity. Qed.

Lemma record_failures_fields times self :
  threshold (record_failures times self) = threshold self
  /\ resetTimeout (record_failures times self) = resetTimeout self
  /\ failureCount (record_failures times self)
     = failureCount self + Z.of_nat (List.length times).
Proof.
  revert self. induction times as [|now times IH]; intros self; simpl.
  - repeat split; lia.
  - destruct (IH (onFailure now self)) as (Ht & Hr & Hf).
    fold (record_failures times (onFailure now self)).
    rewrite Ht, Hr, Hf, onFailure_threshold, onFailure_resetTimeout,
      onFailure_failureCount.
    repeat split; lia.
Qed.

(** While OPEN and before the deadline, [execute] refuses the call and
    touches neither the breaker nor the world. *)
Lemma execute_open_refuses {A} (self : CircuitBreaker) (fn : Task A) (w : World) :
  state self = OPEN ->
  before_next_attempt (Date_now w) self = true ->
  execute self fn w = (Rejected circuit_open_error, self, w).
Proof.
  intros Hs Hb. unfold execute, gate. rewrite Hs, Hb. reflexivity.
Qed.

(** C3.  After at least [threshold] failures recorded in a row (and at least
    one), the breaker is OPEN with the deadline set [resetTimeout] after the
    last failure; every [execute(fn)] before that deadline is rejected with
    the "service unavailable" error, leaves breaker and world as they were,
    and an instrumented [fn] sees no invocation. *)
Theorem breaker_opens_after_threshold_failures
    (self : CircuitBreaker) (times : list Z) (last : Z) :
  reachable self ->
  threshold self <= Z.of_nat (List.length (times ++ [last])) ->
  let tripped := record_failures (times ++ [last]) self in
  state tripped = OPEN
  /\ nextAttempt tripped = Some (last + resetTimeout self)
  /\ forall (A : Type) (fn : Task A) (w : World),
       Date_now w < last + resetTimeout self ->
       execute tripped fn w = (Rejected circuit_open_error, tripped, w)
       /\ calls (snd (execute tripped (counted "fn" fn) w)) = calls w.
Proof.
  intros Hreach Hlen tripped.
  assert (Hfc := reachable_failureCount_nonneg _ Hreach).
  destruct (record_failures_fields times self) as (Ht & Hr & Hf).
  assert (Htrip : state tripped = OPEN
                  /\ nextAttempt tripped = Some (last + resetTimeout self)).
  { unfold tripped. rewrite record_failures_snoc, <- Hr.
    apply onFailure_trips. rewrite Ht, Hf.
    rewrite length_app in Hlen. simpl in Hlen. lia. }
  destruct Htrip as [Hs Hn].
  split; [exact Hs|]. split; [exact Hn|].
  intros A fn w Hnow.
  assert (Hb : before_next_attempt (Date_now w) tripped = true).
  { unfold before_next_attempt. rewrite Hn. apply Z.ltb_lt. exact Hnow. }
  split.
  - apply execute_open_refuses; assumption.
  - rewrite (execute_open_refuses tripped (counted "fn" fn) w Hs Hb). reflexivity.
Qed.

Lemma breaker_opens_after_threshold_failures_witness :
  let self := new_CircuitBreaker Main.breaker_options in
  reachable self
  /\ threshold self <= Z.of_nat (List.length ([1000; 2000] ++ [3000]))
  /\ state (record_failures ([1000; 2000] ++ [3000]) self) = OPEN
  /\ nextAttempt (record_failures ([1000; 2000] ++ [3000]) self) = Some 63000.
Proof.
  intros self.
  assert (Hr : reachable self) by apply reach_new.
  assert (Hl : threshold self <= Z.of_nat (List.length ([1000; 2000] ++ [3000])))
    by (vm_compute; discriminate).
  destruct (breaker_opens_after_threshold_failures self [1000; 2000] 3000 Hr Hl)
    as (Hs & Hn & _).
  repeat split; assumption.
Defined.

(** C4.  Take a breaker reached by any interleaving of calls.  If it is
    OPEN, the first [execute] at or after [nextAttempt] puts it in the
    HALF_OPEN state and runs [fn] as the trial call; when the trial succeeds
    the breaker is left CLOSED with [failureCount = 0], and when it fails the
    breaker is left OPEN with [nextAttempt = now + resetTimeout], [now] being
    the instant of the failure.  The same two outcomes hold of any breaker
    found in the HALF_OPEN state when a call settles. *)
Theorem half_open_trial_outcome (self : CircuitBreaker) :
  reachable self ->
  (state self = OPEN ->
   forall (A : Type) (fn : Task A) (w : World),
     before_next_attempt (Date_now w) self = false ->
     gate (Date_now w) self = inr (setState HALF_OPEN self)
     /\ state (setState HALF_OPEN self) = HALF_OPEN
     /\ execute self fn w
        = (fst (fn w),
           settle (Date_now (snd (fn w))) (fst (fn w)) (setState HALF_OPEN self),
           snd (fn w))
     /\ match execute self fn w with
        | (Fulfilled _, self', _) => state self' = CLOSED /\ failureCount self' = 0
        | (Rejected _, self', w') =>
            state self' = OPEN
            /\ nextAttempt self' = Some (Date_now w' + resetTimeout self)
        end)
  /\ (state self = HALF_OPEN ->
      (forall (A : Type) (now : Z) (a : A),
          state (settle now (Fulfilled a) self) = CLOSED
          /\ failureCount (settle now (Fulfilled a) self) = 0)
      /\ (forall (A : Type) (now : Z) (e : Error),
          state (settle (A := A) now (Rejected e) self) = OPEN
          /\ nextAttempt (settle (A := A) now (Rejected e) self)
             = Some (now + resetTimeout self))).
Proof.
  intros Hreach. split.
  - intros Hs A fn w Hb.
    assert (Hg : gate (Date_now w) self = inr (setState HALF_OPEN self)).
    { unfold gate. rewrite Hs, Hb. reflexivity. }
    assert (Hr' : reachable (setState HALF_OPEN self)) by (eapply reach_gate; eauto).
    split; [exact Hg|]. split; [reflexivity|].
    unfold execute. rewrite Hg. destruct (fn w) as [r w1]. simpl fst; simpl snd.
    split; [reflexivity|].
    destruct r as [a|e]; simpl settle.
    + split; reflexivity.
    + apply (onFailure_trips (Date_now w1) (setState HALF_OPEN self)).
      assert (threshold (setState HALF_OPEN self)
              <= failureCount (setState HALF_OPEN self)).
      { apply reachable_tripped; [assumption|simpl; congruence]. }
      lia.
  - intros Hs. split.
    + intros A now a. split; reflexivity.
    + intros A now e. simpl. apply onFailure_trips.
      assert (threshold self <= failureCount self).
      { apply reachable_tripped; [assumption|congruence]. }
      lia.
Qed.

End Breaker.

Section BreakerTrial.

Import ErrorHandling Spec.

Lemma half_open_trial_outcome_witness :
  let tripped := record_failures [1000; 2000; 3000] (new_CircuitBreaker Main.breaker_options) in
  let w := mkWorld 70000 [] (fun _ => 0%Q) O in
  let succeeds : Task unit := fun w => (Fulfilled tt, sleep 500 w) in
  let fails : Task unit := fun w => (Rejected circuit_open_error, sleep 500 w) in
  reachable tripped
  /\ state tripped = OPEN
  /\ before_next_attempt (Date_now w) tripped = false
  /\ (state (snd (fst (execute tripped succeeds w))) = CLOSED
      /\ failureCount (snd (fst (execute tripped succeeds w))) = 0)
  /\ (state (snd (fst (execute tripped fails w))) = OPEN
      /\ nextAttempt (snd (fst (execute tripped fails w))) = Some 130500)
  /\ state (setState HALF_OPEN tripped) = HALF_OPEN
  /\ state (settle 70500 (Fulfilled tt) (setState HALF_OPEN tripped)) = CLOSED.
Proof.
  intros tripped w succeeds fails.
  assert (Hr : reachable tripped).
  { unfold tripped, record_failures. simpl fold_left.
    do 3 apply reach_failure. apply reach_new. }
  assert (Hs : state tripped = OPEN) by reflexivity.
  assert (Hb : before_next_attempt (Date_now w) tripped = false) by reflexivity.
  destruct (half_open_trial_outcome tripped Hr) as [Hopen _].
  destruct (Hopen Hs unit succeeds w Hb) as (Hg & Hh & _ & Hok).
  destruct (Hopen Hs unit fails w Hb) as (_ & _ & _ & Hko).
  assert (Hr2 : reachable (setState HALF_OPEN tripped))
    by (eapply reach_gate; [exact Hr|exact Hg]).
  destruct (half_open_trial_outcome (setState HALF_OPEN tripped) Hr2) as [_ Hhalf].
  destruct (Hhalf Hh) as [Hsettle _].
  destruct (Hsettle unit 70500 tt) as [Hclosed _].
  split; [exact Hr|]. split; [exact Hs|]. split; [exact Hb|].
  split; [exact Hok|]. split; [exact Hko|]. split; [exact Hh|exact Hclosed].
Defined.

(** The breaker of the search handler ([threshold: 3], [resetTimeout: 60000])
    in front of a service that is down: three calls reach the service and
    trip the breaker, the fourth is refused without reaching it. *)
Example breaker_trips_after_three_failed_searches :
  let cb := new_CircuitBreaker Main.breaker_options in
  let '(_, cb3, w3) := repeat_search 3 failing_jira cb quiet_world in
  let '(r4, cb4, w4) := repeat_search 4 failing_jira cb quiet_world in
  state cb3 = OPEN /\ failureCount cb3 = 3 /\ nextAttempt cb3 = Some 60300
  /\ invocations "jira" w3 = 3%nat
  /\ r4 = Some (Rejected circuit_open_error)
  /\ cb4 = cb3 /\ invocations "jira" w4 = 3%nat.
Proof. vm_compute. repeat split; reflexivity. Qed.

End BreakerTrial.

(** ** Retry policy *)

Section Retry.

Import ErrorHandling Spec.

Local Open Scope Q_scope.

(** The constructor never turns jitter off. *)
Lemma jitter_always_on options : jitter (new_RetryMechanism options) = true.
Proof. unfold new_RetryMechanism. simpl. destruct (opt_jitter options) as [[]|]; reflexivity. Qed.

Lemma calculateDelay_jittered self attempt w :
  fst (calculateDelay self attempt w)
  = jittered self attempt (if jitter self then entropy w (draws w) else 0).
Proof. unfold calculateDelay. destruct (jitter self); reflexivity. Qed.

Lemma jitter_factor_bounds r :
  0 <= r -> r < 1 -> (1 # 2) <= (1 # 2) + r * (1 # 2) /\ (1 # 2) + r * (1 # 2) <= 1.
Proof. intros H0 H1. split; lra. Qed.

(** C5, as the code has it.  For a retry mechanism whose back-off value
    [v = min(baseDelay * 2^(n-1), maxDelay)] is not negative and a random
    sample in [0, 1): with the [jitter] field off the delay is [floor v]
    (hence [v] itself when [v] is a whole number); with the [jitter] field
    on the delay is a whole number between [floor (v / 2)] and [floor v],
    so it lies in the interval from [v / 2 - 1] (excluded) to [v]. *)
Theorem retry_delay_floor_bounds (self : RetryMechanism) (attempt : Z) (w : World) :
  0 <= entropy w (draws w) ->
  entropy w (draws w) < 1 ->
  0 <= backoff self attempt ->
  let v := backoff self attempt in
  let delay := fst (calculateDelay self attempt w) in
  (jitter self = false ->
     delay = Qfloor v /\ forall n : Z, v == inject_Z n -> delay = n)
  /\ (jitter self = true ->
     (Qfloor ((1 # 2) * v) <= delay <= Qfloor v)%Z
     /\ (1 # 2) * v - 1 < inject_Z delay /\ inject_Z delay <= v).
Proof.
  intros Hr0 Hr1 Hv v delay. unfold delay. rewrite calculateDelay_jittered.
  unfold jittered. fold v. change (0 <= v) in Hv. clearbody v.
  split; intros Hj; rewrite Hj.
  - split; [reflexivity|]. intros n Hn. rewrite Hn. apply Qfloor_Z.
  - destruct (jitter_factor_bounds _ Hr0 Hr1) as [Hlo Hhi].
    set (f := (1 # 2) + entropy w (draws w) * (1 # 2)) in *. clearbody f.
    assert (Ha : 0 <= v * (f - (1 # 2))) by (apply Qmult_le_0_compat; lra).
    assert (Hb : 0 <= v * (1 - f)) by (apply Qmult_le_0_compat; lra).
    assert (H1 : (1 # 2) * v <= v * f) by lra.
    assert (H2 : v * f <= v) by lra.
    assert (Hf1 := Qfloor_resp_le _ _ H1).
    assert (Hf2 := Qfloor_resp_le _ _ H2).
    split; [split; assumption|].
    split.
    + assert (Hlt := Qlt_floor ((1 # 2) * v)).
      assert (inject_Z (Qfloor ((1 # 2) * v)) <= inject_Z (Qfloor (v * f))).
      { rewrite <- Zle_Qle. exact Hf1. }
      rewrite inject_Z_plus in Hlt. change (inject_Z 1) with 1 in Hlt. lra.
    + assert (Hle := Qfloor_le (v * f)). lra.
Qed.

Lemma retry_delay_floor_bounds_witness :
  let self := mkRetry 3 1001 30000 true in
  0 <= entropy quiet_world (draws quiet_world)
  /\ entropy quiet_world (draws quiet_world) < 1
  /\ 0 <= backoff self 1
  /\ (Qfloor ((1 # 2) * backoff self 1) <= fst (calculateDelay self 1 quiet_world)
      <= Qfloor (backoff self 1))%Z.
Proof.
  intros self.
  assert (H0 : 0 <= entropy quiet_world (draws quiet_world)) by (vm_compute; discriminate).
  assert (H1 : entropy quiet_world (draws quiet_world) < 1) by reflexivity.
  assert (H2 : 0 <= backoff self 1) by (vm_compute; discriminate).
  destruct (retry_delay_floor_bounds self 1 quiet_world H0 H1 H2) as [_ Hj].
  destruct (Hj eq_refl) as [Hz _].
  repeat split; try assumption; apply Hz.
Defined.

(** C5 as stated fails.  With jitter on, [baseDelay = 1001] and a random
    sample of [0], the first delay is [500], below half of the back-off value
    [1001]; and a mechanism configured with [jitter: false] still halves the
    delay for that sample instead of waiting the back-off value [1000]. *)
Lemma retry_delay_counterexample :
  (let self := new_RetryMechanism (mkRetryOptions None (Some 1001) None (Some true)) in
   jitter self = true
   /\ backoff self 1 == 1001
   /\ fst (calculateDelay self 1 quiet_world) = 500%Z
   /\ ~ (1 # 2) * backoff self 1 <= inject_Z (fst (calculateDelay self 1 quiet_world)))
  /\
  (let self := new_RetryMechanism (mkRetryOptions None None None (Some false)) in
   backoff self 1 == 1000
   /\ fst (calculateDelay self 1 quiet_world) = 500%Z
   /\ ~ inject_Z (fst (calculateDelay self 1 quiet_world)) == backoff self 1).
Proof.
  split; cbv zeta.
  - split; [reflexivity|]. split; [reflexivity|]. split; [reflexivity|].
    vm_compute. intros H. apply H. reflexivity.
  - split; [reflexivity|]. split; [reflexivity|].
    vm_compute. discriminate.
Qed.

End Retry.

(** ** Search orchestrator *)

Section Orchestrator.

Import ErrorHandling Spec Main.

(** C1, as the code has it.  The task the handler dispatches is the
    breaker's [execute] around the provider's search, with no retry layer: it
    calls the search at most once, and when the breaker lets the call through
    and that one call is rejected, the task settles with this rejection,
    which the breaker records as a failure. *)
Theorem search_task_single_call
    (definition : IntegrationDefinition) q cfg cb w r cb' w' :
  search_task definition q cfg cb w = (r, cb', w') ->
  (invocations (id definition) w' <= S (invocations (id definition) w))%nat
  /\ forall e latency cb1,
       gate (Date_now w) cb = inr cb1 ->
       searchHandler definition q cfg (invocations (id definition) w)
       = (Rejected e, latency) ->
       r = Rejected e
       /\ cb' = onFailure (Date_now w') cb1
       /\ invocations (id definition) w' = S (invocations (id definition) w).
Proof.
  unfold search_task, execute.
  destruct (gate (Date_now w) cb) as [err|cb1] eqn:Hg.
  - intros [= <- <- <-]. split; [lia|]. intros; discriminate.
  - unfold call_handler.
    destruct (searchHandler definition q cfg (invocations (id definition) w))
      as [r0 latency0] eqn:Hh.
    intros [= <- <- <-].
    assert (Hn : invocations (id definition)
                   (mkWorld (clock w + Z.max 0 latency0) (id definition :: calls w)
                      (entropy w) (draws w))
                 = S (invocations (id definition) w)).
    { unfold invocations. simpl. rewrite String.eqb_refl. reflexivity. }
    split; [lia|].
    intros e latency cb1' [= <-] [= -> _].
    repeat split. exact Hn.
Qed.

Lemma search_task_single_call_witness :
  let cb := new_CircuitBreaker breaker_options in
  exists cb' w',
    search_task flaky_jira "deploy" jira_config cb quiet_world
    = (Rejected service_unavailable, cb', w')
    /\ cb' = onFailure (Date_now w') cb
    /\ invocations "jira" w' = 1%nat.
Proof.
  intros cb.
  destruct (search_task flaky_jira "deploy" jira_config cb quiet_world)
    as [[r cb'] w'] eqn:Ht.
  destruct (search_task_single_call flaky_jira "deploy" jira_config cb quiet_world
              r cb' w' Ht) as [_ Hrej].
  destruct (Hrej service_unavailable 120 cb eq_refl eq_refl) as (-> & -> & Hn).
  exists (onFailure (Date_now w') cb), w'. repeat split. exact Hn.
Defined.

(** C1 as stated fails.  The service answers 503 (a transient error) once
    and would succeed at the next request.  The task the handler dispatches
    calls it once and settles as a failure, which the breaker counts; the
    composition with the retry mechanism would have called it twice and
    settled with the results. *)
Lemma search_task_not_retried :
  let cb := new_CircuitBreaker breaker_options in
  IntegrationUtils.isTransientError service_unavailable = true
  /\ (exists cb' w',
        search_task flaky_jira "deploy" jira_config cb quiet_world
        = (Rejected service_unavailable, cb', w')
        /\ invocations "jira" w' = 1%nat
        /\ failureCount cb' = 1)
  /\ (exists cb' w',
        execute cb
          (retry_execute defaultRetryMechanism
             (call_handler flaky_jira "deploy" jira_config)) quiet_world
        = (Fulfilled (VArray [sample_result]), cb', w')
        /\ invocations "jira" w' = 2%nat
        /\ failureCount cb' = 0)
  /\ search_task flaky_jira "deploy" jira_config cb quiet_world
     <> execute cb
          (retry_execute defaultRetryMechanism
             (call_handler flaky_jira "deploy" jira_config)) quiet_world.
Proof.
  intros cb. split; [reflexivity|]. split; [|split].
  - eexists _, _. split; [reflexivity|]. split; reflexivity.
  - eexists _, _. split; [reflexivity|]. split; reflexivity.
  - intros H. apply (f_equal (fun x => fst (fst x))) in H. discriminate H.
Qed.

(** The task list after one iteration of the dispatch loop. *)
Lemma dispatch_one_tasks t0 q filters integrations acc definition :
  let cfg := config_of integrations (id definition) in
  let w0 := world acc in
  tasks (dispatch_one t0 q filters integrations acc definition)
  = if isEnabled cfg && filterAllowed filters definition
       && negb (message_truthy (validationMessage definition cfg))
    then
      tasks acc
      ++ [mkTask (sourceName definition) (extractor_of definition)
            (fst (fst (search_task definition q cfg
                         (fst (getCircuitBreaker (id definition) breaker_options
                                 (circuitBreakers acc)))
                         (mkWorld t0 (calls w0) (entropy w0) (draws w0)))))]
    else tasks acc.
Proof.
  intros cfg w0. unfold dispatch_one. fold cfg.
  destruct (isEnabled cfg); simpl; [|reflexivity].
  destruct (filterAllowed filters definition); simpl; [|reflexivity].
  destruct (message_truthy (validationMessage definition cfg)); simpl; [reflexivity|].
  destruct (getCircuitBreaker _ _ _) as [cb breakers1]. simpl.
  fold w0. destruct (search_task _ _ _ _ _) as [[promise cb'] w1]. reflexivity.
Qed.



Lemma build_tasks_length_from registry t0 q filters integrations acc :
  (forall definition cfg, In definition registry ->
     validationMessage definition cfg <> Some ""%string) ->
  List.length (tasks (fold_left (dispatch_one t0 q filters integrations) registry acc))
  = (List.length (tasks acc)
     + List.length (List.filter (eligible filters integrations) registry))%nat.
Proof.
  revert acc. induction registry as [|definition registry IH]; intros acc Hv; simpl.
  - lia.
  - rewrite IH by (intros; apply Hv; right; assumption).
    rewrite dispatch_one_tasks. unfold eligible.
    specialize (Hv definition (config_of integrations (id definition)) (or_introl eq_refl)).
    destruct (isEnabled _); simpl; [|lia].
    destruct (filterAllowed filters definition); simpl; [|lia].
    destruct (validationMessage definition _) as [m|]; simpl.
    + destruct (String.eqb_spec m ""); [congruence|]. simpl. lia.
    + rewrite length_app. simpl. lia.
Qed.

Lemma collect_results sanitize ts acc :
  results (fold_left (collect_one sanitize) ts acc)
  = results acc ++ flat_map fulfilled_items ts.
Proof.
  revert acc. induction ts as [|t ts IH]; intros acc; simpl.
  - rewrite app_nil_r. reflexivity.
  - rewrite IH. unfold collect_one, fulfilled_items.
    destruct (task_promise t) as [value|reason]; simpl.
    + destruct (task_extract t value) as [e|arr]; simpl.
      * reflexivity.
      * rewrite <- app_assoc. reflexivity.
    + reflexivity.
Qed.

Lemma sort_insert_perm {A} (after : A -> A -> bool) x l :
  Permutation (sort_insert after x l) (x :: l).
Proof.
  induction l as [|y l IH]; simpl.
  - reflexivity.
  - destruct (after x y).
    + rewrite IH. apply perm_swap.
    + reflexivity.
Qed.

Lemma js_sort_perm {A} (after : A -> A -> bool) l : Permutation (js_sort after l) l.
Proof.
  induction l as [|x l IH]; simpl.
  - reflexivity.
  - rewrite sort_insert_perm. constructor. exact IH.
Qed.

Lemma map2_map {A B C} (f : A -> B -> C) (g : A -> B) l :
  RelevanceScorer.map2 f l (List.map g l) = List.map (fun x => f x (g x)) l.
Proof. induction l as [|x l IH]; simpl; [reflexivity|]. rewrite IH. reflexivity. Qed.

Lemma calculateRelevanceScores_keeps now merged q r :
  In r merged ->
  exists r', In r' (RelevanceScorer.calculateRelevanceScores now merged q)
             /\ scored_copy r r'.
Proof.
  intros Hin. unfold RelevanceScorer.calculateRelevanceScores.
  destruct merged as [|r0 merged0] eqn:Hm; [destruct Hin|]. rewrite <- Hm in *.
  replace (List.length merged =? 0)%nat with false by (subst merged; reflexivity).
  destruct (String.eqb q ""); [exists r; split; [assumption|left; reflexivity]|].
  destruct (List.length (RelevanceScorer.tokenize q) =? 0)%nat;
    [exists r; split; [assumption|left; reflexivity]|].
  rewrite map2_map.
  match goal with |- context [List.map ?f merged] => set (f' := f) end.
  exists (f' r). split.
  - apply (Permutation_in _ (Permutation_sym (js_sort_perm _ _))).
    apply in_map. exact Hin.
  - right. unfold f', RelevanceScorer.score_result. eexists. reflexivity.
Qed.

Lemma rank_keeps bm25 now q merged r :
  In r merged -> exists r', In r' (rank bm25 now q merged) /\ scored_copy r r'.
Proof.
  intros Hin. unfold rank.
  destruct (bm25 && (0 <? List.length merged)%nat).
  - apply calculateRelevanceScores_keeps. exact Hin.
  - exists r. split; [|left; reflexivity].
    apply (Permutation_in _ (Permutation_sym (js_sort_perm _ _))). exact Hin.
Qed.

(** The filter tokens the handler keeps are the entries that are not blank. *)
Lemma safeFilters_none entries :
  (List.length (omap is_filter_token entries) =? 0)%nat
  = forallb Vocabulary.blank_entry entries.
Proof.
  induction entries as [|entry entries IH]; [reflexivity|].
  cbn [omap list_omap forallb].
  destruct entry as [| | | |]; try (cbn [is_filter_token Vocabulary.blank_entry]; exact IH).
  all: cbn [is_filter_token Vocabulary.blank_entry].
  all: try (destruct (JS.trim _); [exact IH|reflexivity]).
Qed.

Lemma safeFilters_includes entries key :
  IntegrationUtils.includes_string (omap is_filter_token entries) key
  = existsb (Vocabulary.names_filter key) entries.
Proof.
  unfold IntegrationUtils.includes_string.
  induction entries as [|entry entries IH]; [reflexivity|].
  cbn [omap list_omap existsb].
  destruct entry as [| | | |]; try (cbn [is_filter_token Vocabulary.names_filter]; exact IH).
  all: cbn [is_filter_token Vocabulary.names_filter].
  all: try (destruct (JS.trim _);
            [rewrite andb_false_r; exact IH
            |cbn [String.length Nat.ltb Nat.leb existsb String.eqb negb];
             rewrite andb_true_r, IH, String.eqb_sym; reflexivity]).
Qed.

(** The providers expected to be dispatched to are those that pass the three
    tests of the loop. *)
Lemma expected_dispatch_eligible activeFilters configs definition :
  Vocabulary.expected_dispatch activeFilters configs definition
  = eligible (safeFilters activeFilters) configs definition.
Proof.
  unfold Vocabulary.expected_dispatch, eligible, Vocabulary.enabled_provider,
    Vocabulary.valid_provider, Vocabulary.stored_config, isEnabled,
    validationMessage, config_of, filterAllowed, Vocabulary.matches_active_filters,
    safeFilters.
  replace (default (mkConfig None ∅) (configs !! id definition))
    with (match configs !! id definition with
          | Some c => c
          | None => mkConfig None ∅
          end) by (destruct (configs !! id definition); reflexivity).
  f_equal; [f_equal|].
  - destruct activeFilters as [entries|]; [|reflexivity].
    rewrite safeFilters_none, safeFilters_includes. reflexivity.
  - destruct (validateSearchConfig definition); reflexivity.
Qed.

(** C2, as the code has it.  For a query that is not blank and a registry
    whose validators answer [null] or a message, the number of tasks
    dispatched is the number of providers that are enabled, match the active
    filters once the entries that are not strings or are blank are set aside
    (a list left without a filter token matches every provider), and whose
    [validateSearchConfig] returns [null]; and whatever a fulfilled task
    returned is in the reply (possibly with its score assigned), whatever
    the other tasks settled to. *)
Theorem dispatch_count_and_partial_failure
    sanitize (registry : list IntegrationDefinition) bm25
    (q : string) activeFilters (configs : gmap string Config)
    (breakers : gmap string CircuitBreaker) (w : World) :
  (forall definition cfg, In definition registry ->
     validationMessage definition cfg <> Some ""%string) ->
  JS.trim q <> ""%string ->
  let d := build_tasks registry (JS.trim q) (safeFilters activeFilters) configs breakers w in
  let reply :=
    fst (fst (search sanitize registry bm25 (JS.Str q) activeFilters
                (Fulfilled configs) breakers w)) in
  List.length (tasks d)
  = List.length (List.filter (Vocabulary.expected_dispatch activeFilters configs) registry)
  /\ forall t value arr r,
       In t (tasks d) ->
       task_promise t = Fulfilled value ->
       task_extract t value = inr arr ->
       In r arr ->
       exists r', In r' (results reply) /\ scored_copy r r'.
Proof.
  intros Hv Hq d reply. split.
  - unfold d, build_tasks. rewrite build_tasks_length_from by exact Hv.
    simpl. f_equal. apply filter_ext. intros definition.
    symmetry. apply expected_dispatch_eligible.
  - intros t value arr r Ht Hp He Hr.
    unfold reply, search.
    destruct (String.eqb_spec (JS.trim q) ""); [contradiction|].
    fold d. simpl. apply rank_keeps.
    unfold collect. rewrite collect_results. simpl.
    apply in_flat_map. exists t. split; [exact Ht|].
    unfold fulfilled_items. rewrite Hp, He. exact Hr.
Qed.

(** C2, as the specification words it, fails on a filter list whose only
    entry is blank: taken as given, the list [[" "]] is not empty and names
    no provider, so no task is expected; the handler discards the entry and
    dispatches to every enabled and valid provider. *)
Lemma dispatch_count_counterexample :
  let activeFilters := [JS.Str " "] in
  let d := build_tasks sample_registry (JS.trim "deploy")
             (safeFilters (Some activeFilters)) sample_configs ∅ quiet_world in
  JS.trim "deploy" <> ""%string
  /\ List.length (tasks d) = 2%nat
  /\ List.map task_source (tasks d) = ["Jira"; "Confluence"]%string
  /\ List.length
       (List.filter (Vocabulary.expected_dispatch_given activeFilters sample_configs)
          sample_registry) = 0%nat
  /\ List.length (tasks d)
     <> List.length
          (List.filter (Vocabulary.expected_dispatch_given activeFilters sample_configs)
             sample_registry).
Proof.
  intros activeFilters d.
  split; [vm_compute; discriminate|].
  split; [vm_compute; reflexivity|].
  split; [vm_compute; reflexivity|].
  split; [vm_compute; reflexivity|].
  vm_compute. discriminate.
Qed.

(** The validators of the registry answer [null] or a non-empty message. *)
Lemma registry_messages_nonempty h1 h2 h3 h4 definition cfg :
  In definition (Registry.integrationRegistry h1 h2 h3 h4) ->
  validationMessage definition cfg <> Some ""%string.
Proof.
  intros Hin. simpl in Hin.
  destruct Hin as [<-|[<-|[<-|[<-|[]]]]];
    unfold validationMessage; simpl; unfold Registry.requireFields;
    destruct (negb _); discriminate.
Qed.

Lemma dispatch_count_and_partial_failure_witness :
  let sanitize := fun message _ : string => message in
  let narrow := Some [JS.Str "confluence"; JS.Str " "; JS.Num 7; JS.Str "asana"] in
  let wide := Some [JS.Str "jira"; JS.Str "confluence"; JS.Str "azureDevops"] in
  let dispatch activeFilters :=
    build_tasks sample_registry (JS.trim " deploy ") (safeFilters activeFilters)
      sample_configs ∅ quiet_world in
  let reply activeFilters :=
    fst (fst (search sanitize sample_registry true (JS.Str " deploy ") activeFilters
                (Fulfilled sample_configs) ∅ quiet_world)) in
  JS.trim " deploy " <> ""%string
  /\ List.map id
       (List.filter (Vocabulary.expected_dispatch narrow sample_configs) sample_registry)
     = ["confluence"]%string
  /\ List.length (tasks (dispatch narrow)) = 1%nat
  /\ List.length (tasks (dispatch wide)) = 2%nat
  /\ List.map task_promise (tasks (dispatch wide))
     = [Rejected service_unavailable; Fulfilled (VArray [sample_result])]
  /\ (exists r', In r' (results (reply narrow)) /\ scored_copy sample_result r')
  /\ (exists r', In r' (results (reply wide)) /\ scored_copy sample_result r').
Proof.
  intros sanitize narrow wide dispatch reply.
  assert (Hq : JS.trim " deploy " <> ""%string) by (vm_compute; discriminate).
  destruct (dispatch_count_and_partial_failure sanitize sample_registry true
              " deploy " narrow sample_configs ∅ quiet_world
              (fun definition cfg => registry_messages_nonempty _ _ _ _ definition cfg)
              Hq) as [Hlen1 Hkeep1].
  destruct (dispatch_count_and_partial_failure sanitize sample_registry true
              " deploy " wide sample_configs ∅ quiet_world
              (fun definition cfg => registry_messages_nonempty _ _ _ _ definition cfg)
              Hq) as [Hlen2 Hkeep2].
  split; [exact Hq|]. split; [reflexivity|]. split; [exact Hlen1|].
  split; [exact Hlen2|]. split; [reflexivity|]. split.
  - apply (Hkeep1 (mkTask "Confluence" Registry.arrayExtractor
                     (Fulfilled (VArray [sample_result])))
                  (VArray [sample_result]) [sample_result] sample_result).
    + left. reflexivity.
    + reflexivity.
    + reflexivity.
    + left. reflexivity.
  - apply (Hkeep2 (mkTask "Confluence" Registry.arrayExtractor
                     (Fulfilled (VArray [sample_result])))
                  (VArray [sample_result]) [sample_result] sample_result).
    + right. left. reflexivity.
    + reflexivity.
    + reflexivity.
    + left. reflexivity.
Defined.

(** Filters that are non-blank strings are all kept. *)
Lemma safeFilters_tokens (l : list string) :
  Forall (fun s => JS.trim s <> ""%string) l ->
  safeFilters (Some (List.map JS.Str l)) = l.
Proof.
  unfold safeFilters. induction 1 as [|s l Hs _ IH]; [reflexivity|].
  assert (E : is_filter_token (JS.Str s) = Some s).
  { unfold is_filter_token. destruct (JS.trim s); [contradiction|reflexivity]. }
  cbn [List.map omap list_omap]. rewrite E. f_equal. exact IH.
Qed.

(** The error list of the sample request: Azure DevOps fails validation
    before dispatch, Jira fails at the service; Confluence is not affected
    and Asana is switched off. *)
Example sample_request_errors sanitize :
  errors (fst (fst (search sanitize sample_registry true (JS.Str " deploy ") (Some [])
                      (Fulfilled sample_configs) ∅ quiet_world)))
  = [("Azure DevOps",
      "Azure DevOps configuration is incomplete. Please provide: Organization, Project, Personal Access Token.");
     ("Jira",
      "Jira error: "
      ++ sanitize "The service is temporarily unavailable. Please try again later." "Jira")]%string.
Proof. reflexivity. Qed.

End Orchestrator.

(** ** Relevance scorer *)

Section Scorer.

Import RelevanceScorer Spec.

Local Open Scope R_scope.

(** C10.  When the query has no term left after tokenization, a non-empty
    result list comes back as it was given: same elements, same order, no
    score assigned; this is also what the handler replies with BM25 scoring
    switched on. *)
Theorem no_query_terms_returns_input
    (now : Z) (results : list SearchResult) (query : string) :
  results <> [] ->
  tokenize query = [] ->
  calculateRelevanceScores now results query = results
  /\ Main.rank true now query results = results.
Proof.
  intros Hne Htok.
  assert (H : calculateRelevanceScores now results query = results).
  { unfold calculateRelevanceScores.
    destruct results as [|r results]; [contradiction|]. simpl List.length.
    simpl Nat.eqb. cbv iota.
    destruct (String.eqb query ""); [reflexivity|].
    rewrite Htok. reflexivity. }
  split; [exact H|].
  unfold Main.rank. destruct results as [|r results]; [contradiction|].
  simpl. exact H.
Qed.

Lemma no_query_terms_returns_input_witness :
  [stale_result; sample_result] <> []
  /\ tokenize "the of a ?" = []
  /\ calculateRelevanceScores 1700000000000 [stale_result; sample_result] "the of a ?"
     = [stale_result; sample_result].
Proof.
  assert (Hne : [stale_result; sample_result] <> []) by discriminate.
  assert (Htok : tokenize "the of a ?" = []) by reflexivity.
  destruct (no_query_terms_returns_input 1700000000000 _ _ Hne Htok) as [H _].
  repeat split; assumption.
Defined.

Lemma recency_boost_missing now : calculateRecencyBoost now NoDate = Fin (5 / 10).
Proof. reflexivity. Qed.

(** With a parsable date the boost is the clamped exponential decay. *)
Lemma recency_boost_valid now ms :
  calculateRecencyBoost now (Timestamp ms)
  = Fin (Rmax (1 / 10)
           (Rmin 1 (exp (- ((IZR now - IZR ms) / (1000 * 60 * 60 * 24))
                         * recencyDecayPerDay)))).
Proof. reflexivity. Qed.

Lemma recency_boost_range now date :
  (forall raw, date <> Unparsable raw) ->
  exists x, calculateRecencyBoost now date = Fin x /\ 1 / 10 <= x <= 1.
Proof.
  intros Hd. destruct date as [|raw|ms].
  - exists (5 / 10). split; [reflexivity|lra].
  - exfalso. apply (Hd raw). reflexivity.
  - eexists. split; [apply recency_boost_valid|]. split.
    + apply Rmax_l.
    + apply Rmax_lub; [lra|apply Rmin_l].
Qed.

(** C6 at the failing input.  [new Date('not-a-date')] does not throw, so
    the boost of a result with an unparsable date is [NaN], not the neutral
    0.5 of the [catch] branch. *)
Theorem recency_boost_of_unparsable_date (now : Z) (raw : string) :
  calculateRecencyBoost now (Unparsable raw) = NaN
  /\ calculateRecencyBoost now (Unparsable raw) <> Fin (5 / 10).
Proof. split; [reflexivity|discriminate]. Qed.

(** C7 at the failing input.  The score of a result with an unparsable date
    is [NaN], which is not at least [minScore]. *)
Theorem relevance_score_of_unparsable_date (now : Z) :
  calculateRelevanceScores now [stale_result] "deploy"
  = [set_relevanceScore NaN stale_result]
  /\ ~ Forall (fun r => at_least minScore (relevanceScore r))
         (calculateRelevanceScores now [stale_result] "deploy").
Proof.
  assert (H : calculateRelevanceScores now [stale_result] "deploy"
              = [set_relevanceScore NaN stale_result]).
  { unfold calculateRelevanceScores.
    replace (tokenize "deploy") with ["deploy"%string] by reflexivity.
    reflexivity. }
  split; [exact H|].
  rewrite H. intros HF. inversion HF as [|? ? Hhd _]. exact Hhd.
Qed.

Lemma score_result_floor now q all avg r tokens :
  (forall raw, updated r <> Unparsable raw) ->
  at_least minScore (relevanceScore (score_result now q all avg r tokens)).
Proof.
  intros Hd. unfold score_result.
  destruct (recency_boost_range now (updated r) Hd) as (x & -> & _).
  simpl. apply Rmax_l.
Qed.

(** Apart from unparsable dates, every score is at least [minScore]. *)
Lemma relevance_scores_floor now results query :
  results <> [] ->
  tokenize query <> [] ->
  Forall (fun r => forall raw, updated r <> Unparsable raw) results ->
  Forall (fun r => at_least minScore (relevanceScore r))
    (calculateRelevanceScores now results query).
Proof.
  intros Hne Htok Hd. unfold calculateRelevanceScores.
  destruct results as [|r0 rs] eqn:Hres; [contradiction|]. rewrite <- Hres in *.
  replace (List.length results =? 0)%nat with false by (subst results; reflexivity).
  destruct (String.eqb_spec query "") as [->|_]; [exfalso; apply Htok; reflexivity|].
  destruct (tokenize query) as [|t ts] eqn:Hq; [contradiction|].
  simpl Nat.eqb. cbv iota.
  rewrite map2_map.
  eapply Permutation_Forall; [apply Permutation_sym, js_sort_perm|].
  apply Forall_map. eapply Forall_impl; [exact Hd|].
  intros r Hr. apply score_result_floor. exact Hr.
Qed.

(** *** BM25 and term frequency *)

Lemma frac_le x1 y1 x2 y2 :
  0 < y1 -> 0 < y2 -> x1 * y2 <= x2 * y1 -> x1 / y1 <= x2 / y2.
Proof.
  intros H1 H2 H.
  replace (x1 / y1) with (x1 * y2 / (y1 * y2)) by (field; lra).
  replace (x2 / y2) with (x2 * y1 / (y1 * y2)) by (field; lra).
  apply Rmult_le_compat_r; [|exact H].
  left. apply Rinv_0_lt_compat. nra.
Qed.

(** The saturation factor grows with the term frequency. *)
Lemma saturation_monotone (tf1 tf2 : nat) (c : R) :
  0 < c -> (tf1 <= tf2)%nat -> (0 < tf1)%nat ->
  0 <= INR tf1 * (k1 + 1) / (INR tf1 + c)
  /\ INR tf1 * (k1 + 1) / (INR tf1 + c) <= INR tf2 * (k1 + 1) / (INR tf2 + c).
Proof.
  intros Hc Hle Hpos.
  assert (H1 : 0 < INR tf1) by (apply lt_0_INR; lia).
  assert (H2 : INR tf1 <= INR tf2) by (apply le_INR; lia).
  assert (Hk : 0 < k1 + 1) by (unfold k1; lra).
  split.
  - apply Rmult_le_pos; [nra|]. left. apply Rinv_0_lt_compat. lra.
  - assert (Hkc : 0 <= (k1 + 1) * c * (INR tf2 - INR tf1)).
    { apply Rmult_le_pos; [apply Rmult_le_pos|]; lra. }
    apply frac_le; lra.
Qed.

Lemma docsWithTerm_le term all : (docsWithTerm term all <= List.length all)%nat.
Proof.
  unfold docsWithTerm. induction all as [|d all IH]; simpl; [lia|].
  destruct (IntegrationUtils.includes_string d term); simpl; lia.
Qed.

Lemma idf_argument term all :
  let n := INR (docsWithTerm term all) in
  let N := INR (List.length all) in
  0 < n + 5 / 10 /\ 0 < (N - n + 5 / 10) / (n + 5 / 10).
Proof.
  intros n N.
  assert (0 <= n) by apply pos_INR.
  assert (n <= N) by (apply le_INR, docsWithTerm_le).
  split; [lra|]. apply Rdiv_lt_0_compat; lra.
Qed.

(** A term found in at most half of the documents has a non-negative idf. *)
Lemma idf_nonneg term all :
  (2 * docsWithTerm term all <= List.length all)%nat -> 0 <= idf term all.
Proof.
  intros H. unfold idf. destruct (idf_argument term all) as [Hd Hq].
  apply le_INR in H. rewrite mult_INR in H. simpl INR in H.
  rewrite <- ln_1.
  set (n := INR (docsWithTerm term all)) in *.
  set (N := INR (List.length all)) in *.
  assert (Hge : 1 <= (N - n + 5 / 10) / (n + 5 / 10)).
  { replace 1 with ((n + 5 / 10) / (n + 5 / 10)) by (field; lra).
    apply Rmult_le_compat_r; [left; apply Rinv_0_lt_compat; lra|lra]. }
  destruct Hge as [Hlt|Heq]; [left; apply ln_increasing; lra|right; rewrite <- Heq; reflexivity].
Qed.

(** A term found in more than half of the documents has a negative idf. *)
Lemma idf_neg term all :
  (List.length all < 2 * docsWithTerm term all)%nat -> idf term all < 0.
Proof.
  intros H. unfold idf. destruct (idf_argument term all) as [Hd Hq].
  apply lt_INR in H. rewrite mult_INR in H. simpl INR in H.
  rewrite <- ln_1.
  set (n := INR (docsWithTerm term all)) in *.
  set (N := INR (List.length all)) in *.
  apply ln_increasing; [exact Hq|].
  replace 1 with ((n + 5 / 10) / (n + 5 / 10)) by (field; lra).
  apply Rmult_lt_compat_r; [apply Rinv_0_lt_compat; lra|lra].
Qed.

Lemma length_weight_pos (len : nat) (avg : R) :
  0 < avg -> 0 < k1 * (1 - b + b * (INR len / avg)).
Proof.
  intros Havg. unfold k1, b.
  assert (0 <= INR len / avg).
  { apply Rmult_le_pos; [apply pos_INR|left; apply Rinv_0_lt_compat; exact Havg]. }
  nra.
Qed.

(** The contribution of one term, for two documents of the same length, as
    a function of the sign of the term's idf. *)
Lemma term_score_monotone term d d' all avg :
  0 < avg ->
  List.length d = List.length d' ->
  (term_frequency term d <= term_frequency term d')%nat ->
  (0 <= idf term all -> term_score term d all avg <= term_score term d' all avg)
  /\ (idf term all <= 0 -> term_score term d' all avg <= term_score term d all avg).
Proof.
  intros Havg Hlen Htf. unfold term_score. rewrite <- Hlen.
  assert (Hc := length_weight_pos (List.length d) avg Havg).
  set (c := k1 * (1 - b + b * (INR (List.length d) / avg))) in *.
  destruct (term_frequency term d) as [|tf1] eqn:E1;
    destruct (term_frequency term d') as [|tf2] eqn:E2;
    unfold Nat.ltb; simpl Nat.leb; cbv iota; try lia.
  - split; intros; lra.
  - destruct (docsWithTerm term all =? 0)%nat; [split; intros; lra|].
    destruct (saturation_monotone (S tf2) (S tf2) c Hc (le_n _) ltac:(lia)) as [H0 _].
    split; intros Hi; nra.
  - destruct (docsWithTerm term all =? 0)%nat; [split; intros; lra|].
    destruct (saturation_monotone (S tf1) (S tf2) c Hc Htf ltac:(lia)) as [H0 H1].
    split; intros Hi; nra.
Qed.

Lemma fold_left_add_le {A} (g h : A -> R) (l : list A) (x y : R) :
  x <= y ->
  (forall u, In u l -> g u <= h u) ->
  fold_left (fun score u => score + g u) l x
  <= fold_left (fun score u => score + h u) l y.
Proof.
  revert x y. induction l as [|u l IH]; intros x y Hxy Hgh; simpl.
  - exact Hxy.
  - apply IH.
    + assert (g u <= h u) by (apply Hgh; left; reflexivity). lra.
    + intros v Hv. apply Hgh. right. exact Hv.
Qed.

Lemma term_score_same u d d' all avg :
  List.length d = List.length d' ->
  term_frequency u d = term_frequency u d' ->
  term_score u d all avg = term_score u d' all avg.
Proof. intros Hlen Htf. unfold term_score. rewrite Hlen, Htf. reflexivity. Qed.

(** C8, as the code has it.  Two documents of the same length are scored
    against the same corpus and average length; they differ in the frequency
    of one query term only.  If that term occurs in at most half of the
    documents of the corpus, the document with the higher frequency never
    scores lower; if it occurs in more than half of them, its idf is negative
    and the document with the higher frequency never scores higher. *)
Theorem bm25_term_frequency_monotone
    (queryTerms d d' : list string) (all : list (list string)) (avg : R)
    (term : string) :
  0 < avg ->
  List.length d = List.length d' ->
  (term_frequency term d <= term_frequency term d')%nat ->
  (forall u, In u queryTerms -> u <> term ->
     term_frequency u d = term_frequency u d') ->
  ((2 * docsWithTerm term all <= List.length all)%nat ->
     calculateBM25Score queryTerms d all avg <= calculateBM25Score queryTerms d' all avg)
  /\ ((List.length all < 2 * docsWithTerm term all)%nat ->
     calculateBM25Score queryTerms d' all avg <= calculateBM25Score queryTerms d all avg).
Proof.
  intros Havg Hlen Htf Hother.
  destruct (term_score_monotone term d d' all avg Havg Hlen Htf) as [Hup Hdown].
  unfold calculateBM25Score. rewrite <- Hlen.
  split; intros Hdf; destruct (List.length d =? 0)%nat; try lra;
    apply fold_left_add_le; try lra; intros u Hu;
    destruct (string_dec u term) as [->|Hne].
  - apply Hup, idf_nonneg, Hdf.
  - right. apply term_score_same; [exact Hlen|apply Hother; assumption].
  - apply Hdown. left. apply idf_neg, Hdf.
  - right. symmetry. apply term_score_same; [exact Hlen|apply Hother; assumption].
Qed.

Lemma bm25_term_frequency_monotone_witness :
  let q := ["deploy"; "notes"]%string in
  let d := ["deploy"; "notes"; "draft"]%string in
  let d' := ["deploy"; "notes"; "deploy"]%string in
  let all := [d; ["release"; "notes"]; ["meeting"; "minutes"]]%string in
  0 < 2
  /\ List.length d = List.length d'
  /\ (term_frequency "deploy" d < term_frequency "deploy" d')%nat
  /\ (2 * docsWithTerm "deploy" all <= List.length all)%nat
  /\ calculateBM25Score q d all 2 <= calculateBM25Score q d' all 2.
Proof.
  intros q d d' all.
  assert (Havg : 0 < 2) by lra.
  assert (Hlen : List.length d = List.length d') by reflexivity.
  assert (Htf : (term_frequency "deploy" d <= term_frequency "deploy" d')%nat)
    by (vm_compute; lia).
  assert (Hother : forall u, In u q -> u <> "deploy"%string ->
                     term_frequency u d = term_frequency u d').
  { intros u [<-|[<-|[]]] Hne; [contradiction|reflexivity]. }
  assert (Hdf : (2 * docsWithTerm "deploy" all <= List.length all)%nat)
    by (vm_compute; lia).
  destruct (bm25_term_frequency_monotone q d d' all 2 "deploy" Havg Hlen Htf Hother)
    as [Hup _].
  split; [exact Havg|]. split; [exact Hlen|].
  split; [vm_compute; lia|]. split; [exact Hdf|]. apply Hup. exact Hdf.
Defined.

(** C8 as stated fails: when both documents of the corpus contain the term,
    its idf is [ln (0.5 / 2.5) < 0], and the document that repeats the term
    scores lower than the one of the same length that has it once. *)
Lemma bm25_term_frequency_counterexample :
  let q := ["deploy"]%string in
  let d := ["deploy"; "notes"]%string in
  let d' := ["deploy"; "deploy"]%string in
  let all := [["deploy"; "notes"]; ["deploy"; "guide"]]%string in
  List.length d = List.length d'
  /\ (term_frequency "deploy" d < term_frequency "deploy" d')%nat
  /\ docsWithTerm "deploy" all = 2%nat
  /\ calculateBM25Score q d' all 2 < calculateBM25Score q d all 2.
Proof.
  intros q d d' all.
  split; [reflexivity|]. split; [vm_compute; lia|]. split; [reflexivity|].
  assert (Hidf : idf "deploy" all < 0) by (apply idf_neg; vm_compute; lia).
  unfold calculateBM25Score, q, d, d'. simpl fold_left. simpl Nat.eqb. cbv iota.
  unfold term_score.
  replace (term_frequency "deploy" ["deploy"; "notes"]%string) with 1%nat by reflexivity.
  replace (term_frequency "deploy" ["deploy"; "deploy"]%string) with 2%nat by reflexivity.
  replace (docsWithTerm "deploy" all) with 2%nat by reflexivity.
  unfold Nat.ltb. simpl Nat.leb. simpl Nat.eqb. cbv iota. simpl List.length.
  set (L := idf "deploy" all) in *. clearbody L.
  simpl INR. unfold k1, b.
  replace ((1 + 1) * (12 / 10 + 1) / (1 + 1 + 12 / 10 * (1 - 75 / 100 + 75 / 100 * ((1 + 1) / 2))))
    with (11 / 8) by field.
  replace (1 * (12 / 10 + 1) / (1 + 12 / 10 * (1 - 75 / 100 + 75 / 100 * ((1 + 1) / 2))))
    with 1 by field.
  lra.
Qed.

End Scorer.

(** * Further properties *)

(** ** Circuit breaker, continued *)

Section BreakerMore.

Import ErrorHandling Spec.

(** [onFailure] reads the clock twice, for [lastFailure] and for
    [nextAttempt]; with one instant for both reads it is [onFailure_at]. *)
Lemma onFailure_at_same now self :
  Vocabulary.onFailure_at now now self = onFailure now self.
Proof. reflexivity. Qed.

Lemma reachable_reachable_by self :
  reachable self -> Vocabulary.reachable_by eq self.
Proof.
  induction 1 as [options|now self self' _ IH Hg|self _ IH|now self _ IH].
  - apply Vocabulary.reach_by_new.
  - eapply Vocabulary.reach_by_gate; eassumption.
  - apply Vocabulary.reach_by_success. exact IH.
  - rewrite <- onFailure_at_same.
    apply Vocabulary.reach_by_failure; [reflexivity|exact IH].
Qed.

Lemma reachable_by_counts ticks self :
  Vocabulary.reachable_by ticks self ->
  0 <= failureCount self
  /\ (state self <> CLOSED -> threshold self <= failureCount self).
Proof.
  induction 1 as [options|now self self' _ IH Hg|self _ IH|t_last t_next self _ _ IH].
  - simpl. split; [lia|congruence].
  - unfold gate in Hg. destruct (state self) eqn:Hst.
    + injection Hg as <-. rewrite Hst. split; [apply IH|congruence].
    + destruct (before_next_attempt now self); [discriminate|].
      injection Hg as <-. simpl. split; [apply IH|]. intros _. apply IH. congruence.
    + injection Hg as <-. rewrite Hst. split; [apply IH|]. intros _. apply IH. congruence.
  - simpl. split; [lia|congruence].
  - destruct IH as [Hn Ht]. unfold Vocabulary.onFailure_at. simpl.
    destruct (threshold self <=? failureCount self + 1) eqn:Hle; simpl.
    + split; lia.
    + split; [lia|]. intros Hs. specialize (Ht Hs). lia.
Qed.

Lemma reachable_by_deadline ticks self :
  Vocabulary.reachable_by ticks self -> state self <> CLOSED ->
  exists t_last t_next,
    ticks t_last t_next
    /\ lastFailure self = Some t_last
    /\ nextAttempt self = Some (t_next + resetTimeout self).
Proof.
  induction 1 as [options|now self self' Hr IH Hg|self _ IH|t_last t_next self Hticks Hr IH];
    intros Hs.
  - simpl in Hs. congruence.
  - unfold gate in Hg. destruct (state self) eqn:Hst.
    + injection Hg as <-. congruence.
    + destruct (before_next_attempt now self); [discriminate|].
      injection Hg as <-. simpl. apply IH. congruence.
    + injection Hg as <-. apply IH. congruence.
  - simpl in Hs. congruence.
  - unfold Vocabulary.onFailure_at in *. simpl in *.
    destruct (threshold self <=? failureCount self + 1) eqn:Hle; simpl in *.
    + exists t_last, t_next. split; [exact Hticks|]. split; reflexivity.
    + destruct (reachable_by_counts ticks self Hr) as [_ Htr].
      specialize (Htr Hs). lia.
Qed.

(** X1.  Whatever calls were made and however they interleave, a breaker
    never has a negative failure count, and one that is OPEN or HALF_OPEN has
    reached its threshold, its [lastFailure] is the first clock read of the
    last recorded failure and its deadline lies [resetTimeout] after the
    second clock read of that failure.  [ticks] is what is known of two
    successive clock reads: with a clock that does not run backwards the
    deadline is at least [resetTimeout] after [lastFailure]. *)
Theorem breaker_invariant (ticks : Z -> Z -> Prop) (self : CircuitBreaker) :
  Vocabulary.reachable_by ticks self ->
  0 <= failureCount self
  /\ (state self <> CLOSED ->
      threshold self <= failureCount self
      /\ exists t_last t_next,
           ticks t_last t_next
           /\ lastFailure self = Some t_last
           /\ nextAttempt self = Some (t_next + resetTimeout self)).
Proof.
  intros Hr. split; [apply (reachable_by_counts ticks self Hr)|].
  intros Hs. split; [apply (reachable_by_counts ticks self Hr); exact Hs|].
  apply reachable_by_deadline; assumption.
Qed.

Lemma breaker_invariant_witness :
  let self :=
    Vocabulary.onFailure_at 3000 3002
      (Vocabulary.onFailure_at 2000 2001
         (Vocabulary.onFailure_at 1000 1000
            (new_CircuitBreaker Main.breaker_options))) in
  Vocabulary.reachable_by Z.le self
  /\ state self = OPEN
  /\ lastFailure self = Some 3000
  /\ nextAttempt self = Some 63002
  /\ threshold self <= failureCount self
  /\ exists t_last t_next,
       t_last <= t_next
       /\ lastFailure self = Some t_last
       /\ nextAttempt self = Some (t_next + resetTimeout self).
Proof.
  intros self.
  assert (Hr : Vocabulary.reachable_by Z.le self).
  { unfold self.
    apply Vocabulary.reach_by_failure; [lia|].
    apply Vocabulary.reach_by_failure; [lia|].
    apply Vocabulary.reach_by_failure; [lia|].
    apply Vocabulary.reach_by_new. }
  destruct (breaker_invariant Z.le self Hr) as [_ H].
  split; [exact Hr|]. split; [reflexivity|]. split; [reflexivity|].
  split; [reflexivity|]. apply H. discriminate.
Defined.

(** X2.  A CLOSED breaker stays CLOSED while the failures recorded in a row
    keep the count below the threshold, and it then still lets every call
    through to [fn]. *)
Theorem breaker_stays_closed_below_threshold
    (self : CircuitBreaker) (times : list Z) :
  state self = CLOSED ->
  failureCount self + Z.of_nat (List.length times) < threshold self ->
  let cb := record_failures times self in
  state cb = CLOSED
  /\ failureCount cb = failureCount self + Z.of_nat (List.length times)
  /\ forall (A : Type) (fn : Task A) (w : World),
       execute cb fn w
       = (fst (fn w), settle (Date_now (snd (fn w))) (fst (fn w)) cb, snd (fn w)).
Proof.
  revert self. induction times as [|now times IH]; intros self Hs Hlt cb.
  - unfold cb. simpl. split; [exact Hs|]. split; [lia|].
    intros A fn w. unfold execute, gate. rewrite Hs. destruct (fn w). reflexivity.
  - assert (Hone : state (onFailure now self) = CLOSED
                   /\ failureCount (onFailure now self) = failureCount self + 1
                   /\ threshold (onFailure now self) = threshold self).
    { unfold onFailure. simpl.
      destruct (threshold self <=? failureCount self + 1) eqn:Hle.
      - apply Z.leb_le in Hle. simpl List.length in Hlt. lia.
      - simpl. repeat split. exact Hs. }
    destruct Hone as (Hs1 & Hf1 & Ht1).
    simpl List.length in Hlt.
    destruct (IH (onFailure now self) Hs1 ltac:(lia)) as (Hs' & Hf' & Hex).
    unfold cb. simpl. fold (record_failures times (onFailure now self)).
    split; [exact Hs'|]. split; [simpl List.length; lia|]. exact Hex.
Qed.

Lemma breaker_stays_closed_below_threshold_witness :
  let self := onSuccess (record_failures [1000; 2000] (new_CircuitBreaker Main.breaker_options)) in
  state self = CLOSED
  /\ failureCount self + Z.of_nat (List.length [5000; 6000]) < threshold self
  /\ state (record_failures [5000; 6000] self) = CLOSED
  /\ failureCount (record_failures [5000; 6000] self) = 2.
Proof.
  intros self.
  assert (Hs : state self = CLOSED) by reflexivity.
  assert (Hlt : failureCount self + Z.of_nat (List.length [5000; 6000]) < threshold self)
    by (vm_compute; reflexivity).
  destruct (breaker_stays_closed_below_threshold self [5000; 6000] Hs Hlt)
    as (H1 & H2 & _).
  split; [exact Hs|]. split; [exact Hlt|]. split; [exact H1|]. exact H2.
Defined.

(** X3.  [execute] never alters what [fn] settled to: either it returns the
    outcome and the world of [fn], or the breaker was OPEN and it returns the
    "service unavailable" error with breaker and world untouched.  The
    configuration of the breaker is never changed. *)
Theorem execute_transparent {A} (self : CircuitBreaker) (fn : Task A) (w : World) :
  let '(r, self', w') := execute self fn w in
  ((r = fst (fn w) /\ w' = snd (fn w))
   \/ (r = Rejected circuit_open_error /\ self' = self /\ w' = w /\ state self = OPEN))
  /\ threshold self' = threshold self
  /\ resetTimeout self' = resetTimeout self.
Proof.
  unfold execute, gate.
  destruct (state self) eqn:Hs.
  - destruct (fn w) as [r w1]. simpl fst; simpl snd.
    split; [left; split; reflexivity|].
    destruct r; simpl; [split; reflexivity|].
    rewrite onFailure_threshold, onFailure_resetTimeout. split; reflexivity.
  - destruct (before_next_attempt (Date_now w) self).
    + split; [right; repeat split; assumption|split; reflexivity].
    + destruct (fn w) as [r w1]. simpl fst; simpl snd.
      split; [left; split; reflexivity|].
      destruct r; simpl; [split; reflexivity|].
      rewrite onFailure_threshold, onFailure_resetTimeout. split; reflexivity.
  - destruct (fn w) as [r w1]. simpl fst; simpl snd.
    split; [left; split; reflexivity|].
    destruct r; simpl; [split; reflexivity|].
    rewrite onFailure_threshold, onFailure_resetTimeout. split; reflexivity.
Qed.

(** X4.  [getCircuitBreaker] creates the instance of a service once: the
    instance it returns is the one stored under the name, a later call
    returns the same instance and leaves the map alone whatever options it is
    given, and the breakers of other services are not touched. *)
Theorem getCircuitBreaker_reuses_instance
    (name : string) (options options' : BreakerOptions)
    (breakers : gmap string CircuitBreaker) :
  let '(cb, breakers1) := getCircuitBreaker name options breakers in
  breakers1 !! name = Some cb
  /\ getCircuitBreaker name options' breakers1 = (cb, breakers1)
  /\ (forall other, other <> name -> breakers1 !! other = breakers !! other)
  /\ (breakers !! name = None -> cb = new_CircuitBreaker options)
  /\ (forall old, breakers !! name = Some old -> cb = old /\ breakers1 = breakers).
Proof.
  unfold getCircuitBreaker. destruct (breakers !! name) as [old|] eqn:Hl.
  - rewrite Hl.
    split; [reflexivity|]. split; [reflexivity|]. split; [reflexivity|].
    split; [intros H; discriminate|].
    intros old' [= <-]. split; reflexivity.
  - rewrite lookup_insert_eq.
    split; [reflexivity|]. split; [reflexivity|].
    split; [intros other Hne; apply lookup_insert_ne; congruence|].
    split; [reflexivity|]. intros old H; discriminate.
Qed.

Lemma getCircuitBreaker_reuses_instance_witness :
  let breakers : gmap string CircuitBreaker := ∅ in
  let '(cb, breakers1) := getCircuitBreaker "jira" Main.breaker_options breakers in
  cb = new_CircuitBreaker Main.breaker_options
  /\ getCircuitBreaker "jira" no_options breakers1 = (cb, breakers1)
  /\ threshold (fst (getCircuitBreaker "jira" no_options breakers1)) = 3.
Proof.
  intros breakers.
  assert (H := getCircuitBreaker_reuses_instance "jira" Main.breaker_options
                 no_options breakers).
  destruct (getCircuitBreaker "jira" Main.breaker_options breakers) as [cb breakers1].
  destruct H as (_ & Hagain & _ & Hnew & _).
  assert (Hcb : cb = new_CircuitBreaker Main.breaker_options)
    by (apply Hnew; reflexivity).
  split; [exact Hcb|]. split; [exact Hagain|].
  rewrite Hagain, Hcb. reflexivity.
Defined.

End BreakerMore.

(** ** Retry mechanism, continued *)

Section RetryMore.

Import ErrorHandling Spec Vocabulary.

Variable self : RetryMechanism.
Variable definition : IntegrationDefinition.
Variable q : string.
Variable cfg : Config.

Let fn : Task Value := call_handler definition q cfg.
Let n (w : World) : nat := invocations (id definition) w.

Lemma call_handler_counts w :
  n (snd (fn w)) = S (n w)
  /\ fst (fn w) = fst (searchHandler definition q cfg (n w)).
Proof.
  unfold fn, n, call_handler.
  destruct (searchHandler definition q cfg (invocations (id definition) w))
    as [r latency].
  simpl. unfold invocations. simpl. rewrite String.eqb_refl. split; reflexivity.
Qed.

Lemma pause_keeps_calls attempt w :
  calls (sleep (fst (calculateDelay self attempt w))
           (snd (calculateDelay self attempt w))) = calls w.
Proof. unfold calculateDelay, Math_random, sleep. destruct (jitter self); reflexivity. Qed.

Lemma pause_keeps_invocations attempt w :
  n (sleep (fst (calculateDelay self attempt w))
       (snd (calculateDelay self attempt w))) = n w.
Proof. unfold n, invocations. rewrite pause_keeps_calls. reflexivity. Qed.

(** One round of the loop, seen from outside. *)
Lemma retry_loop_step remaining attempt lastError w :
  retry_loop self fn (S remaining) attempt lastError w
  = match fst (fn w) with
    | Fulfilled v => (Fulfilled v, snd (fn w))
    | Rejected error =>
        if (attempt =? maxRetries self)%Z
           || negb (IntegrationUtils.isTransientError error)
        then (Rejected error, snd (fn w))
        else
          retry_loop self fn remaining (attempt + 1) error
            (sleep (fst (calculateDelay self attempt (snd (fn w))))
               (snd (calculateDelay self attempt (snd (fn w)))))
    end.
Proof.
  simpl. destruct (fn w) as [r w1]. simpl. destruct r as [v|error]; [reflexivity|].
  destruct ((attempt =? maxRetries self)%Z || negb (IntegrationUtils.isTransientError error));
    [reflexivity|].
  destruct (calculateDelay self attempt w1). reflexivity.
Qed.

Lemma retry_loop_bounded remaining attempt lastError w :
  (n w <= n (snd (retry_loop self fn remaining attempt lastError w))
   <= n w + remaining)%nat.
Proof.
  revert attempt lastError w.
  induction remaining as [|remaining IH]; intros attempt lastError w.
  - simpl. lia.
  - rewrite retry_loop_step. destruct (call_handler_counts w) as [Hn _].
    destruct (fst (fn w)) as [v|error]; simpl snd; [lia|].
    destruct ((attempt =? maxRetries self)%Z || negb (IntegrationUtils.isTransientError error));
      simpl snd; [lia|].
    specialize (IH (attempt + 1)%Z error
                  (sleep (fst (calculateDelay self attempt (snd (fn w))))
                     (snd (calculateDelay self attempt (snd (fn w)))))).
    rewrite pause_keeps_invocations in IH. lia.
Qed.

Lemma retry_loop_calls_once remaining attempt lastError w :
  (n w < n (snd (retry_loop self fn (S remaining) attempt lastError w)))%nat.
Proof.
  rewrite retry_loop_step. destruct (call_handler_counts w) as [Hn _].
  destruct (fst (fn w)) as [v|error]; simpl snd; [lia|].
  destruct ((attempt =? maxRetries self)%Z || negb (IntegrationUtils.isTransientError error));
    simpl snd; [lia|].
  match goal with |- context [retry_loop self fn remaining ?a ?e ?w'] =>
    assert (H := retry_loop_bounded remaining a e w') end.
  rewrite pause_keeps_invocations in H. lia.
Qed.

(** X5.  Wrapped around a provider's search, the retry mechanism calls the
    search at most [maxRetries] times (so [maxRetries] is the number of
    attempts, not of repetitions), and at least once when [maxRetries] is
    positive. *)
Theorem retry_attempts_bounded (w : World) :
  let w' := snd (retry_execute self fn w) in
  (n w' <= n w + Z.to_nat (maxRetries self))%nat
  /\ (0 < maxRetries self -> (n w < n w')%nat).
Proof.
  intros w'. unfold w', retry_execute. split.
  - apply retry_loop_bounded.
  - intros Hpos. destruct (Z.to_nat (maxRetries self)) as [|m] eqn:Hm; [lia|].
    apply retry_loop_calls_once.
Qed.

(** X6.  When the first attempt succeeds, or fails with an error that is not
    transient, the retry mechanism returns what [fn] returned and leaves the
    world as [fn] left it: no delay, no further call. *)
Theorem retry_first_attempt_final {A} (task : Task A) (w : World) :
  0 < maxRetries self ->
  match fst (task w) with
  | Fulfilled _ => True
  | Rejected e => IntegrationUtils.isTransientError e = false
  end ->
  retry_execute self task w = task w.
Proof.
  intros Hpos Hfirst. unfold retry_execute.
  destruct (Z.to_nat (maxRetries self)) as [|m] eqn:Hm; [lia|].
  simpl. destruct (task w) as [r w1]. simpl in Hfirst.
  destruct r as [v|e]; [reflexivity|].
  rewrite Hfirst. rewrite orb_true_r. reflexivity.
Qed.

Lemma transient_failures_tail h n0 k :
  transient_failures h q cfg n0 (S k) -> transient_failures h q cfg (S n0) k.
Proof.
  intros H i Hi. destruct (H (S i) ltac:(lia)) as (e & latency & He & Ht).
  exists e, latency. split; [|exact Ht].
  rewrite <- He. f_equal. lia.
Qed.

Lemma retry_loop_recovers k :
  forall remaining attempt lastError w v latency,
    (k < remaining)%nat ->
    attempt + Z.of_nat remaining = maxRetries self + 1 ->
    transient_failures (searchHandler definition) q cfg (n w) k ->
    searchHandler definition q cfg (n w + k)%nat = (Fulfilled v, latency) ->
    exists w', retry_loop self fn remaining attempt lastError w = (Fulfilled v, w')
               /\ n w' = (n w + k + 1)%nat.
Proof.
  induction k as [|k IH]; intros remaining attempt lastError w v latency Hk Hinv Hfail Hok;
    (destruct remaining as [|remaining]; [lia|]);
    rewrite retry_loop_step; destruct (call_handler_counts w) as [Hn Hr].
  - rewrite Hr. replace (n w + 0)%nat with (n w) in Hok by lia. rewrite Hok. simpl fst. cbv iota beta.
    eexists. split; [reflexivity|]. lia.
  - destruct (Hfail O ltac:(lia)) as (e & lat & He & Ht).
    replace (n w + 0)%nat with (n w) in He by lia.
    rewrite Hr, He. simpl fst. cbv iota beta. rewrite Ht.
    replace (attempt =? maxRetries self)%Z with false by (symmetry; apply Z.eqb_neq; lia).
    simpl orb. cbv iota.
    match goal with |- context [retry_loop self fn remaining ?a ?e' ?w1] =>
      destruct (IH remaining a e' w1 v latency) as (w' & Hw' & Hcount) end.
    + lia.
    + lia.
    + rewrite pause_keeps_invocations, Hn. apply transient_failures_tail. exact Hfail.
    + rewrite pause_keeps_invocations, Hn. rewrite <- Hok. f_equal. lia.
    + exists w'. split; [exact Hw'|].
      rewrite Hcount, pause_keeps_invocations, Hn. lia.
Qed.

(** X7.  If the service fails [k] times in a row with transient errors and
    then answers, and [k] is below [maxRetries], the retry mechanism returns
    that answer after exactly [k + 1] calls. *)
Theorem retry_until_success (w : World) (k : nat) (v : Value) (latency : Z) :
  (k < Z.to_nat (maxRetries self))%nat ->
  transient_failures (searchHandler definition) q cfg (n w) k ->
  searchHandler definition q cfg (n w + k)%nat = (Fulfilled v, latency) ->
  exists w', retry_execute self fn w = (Fulfilled v, w')
             /\ n w' = (n w + k + 1)%nat.
Proof.
  intros Hk Hfail Hok. unfold retry_execute.
  eapply retry_loop_recovers; eauto. lia.
Qed.

Lemma retry_loop_gives_up remaining :
  forall attempt lastError w,
    attempt + Z.of_nat (S remaining) = maxRetries self + 1 ->
    transient_failures (searchHandler definition) q cfg (n w) (S remaining) ->
    exists e latency w',
      searchHandler definition q cfg (n w + remaining)%nat = (Rejected e, latency)
      /\ retry_loop self fn (S remaining) attempt lastError w = (Rejected e, w')
      /\ n w' = (n w + S remaining)%nat.
Proof.
  induction remaining as [|remaining IH]; intros attempt lastError w Hinv Hfail;
    rewrite retry_loop_step; destruct (call_handler_counts w) as [Hn Hr];
    destruct (Hfail O ltac:(lia)) as (e & lat & He & Ht);
    replace (n w + 0)%nat with (n w) in He by lia;
    rewrite Hr, He; simpl fst; cbv iota beta; rewrite Ht.
  - replace (attempt =? maxRetries self)%Z with true by (symmetry; apply Z.eqb_eq; lia).
    simpl orb. cbv iota. exists e, lat. eexists. split; [|split; [reflexivity|]].
    + replace (n w + 0)%nat with (n w) by lia. exact He.
    + simpl snd. lia.
  - replace (attempt =? maxRetries self)%Z with false by (symmetry; apply Z.eqb_neq; lia).
    simpl orb. cbv iota.
    match goal with |- context [retry_loop self fn (S remaining) ?a ?e' ?w1] =>
      destruct (IH a e' w1) as (e2 & lat2 & w' & He2 & Hw' & Hcount) end.
    + lia.
    + rewrite pause_keeps_invocations, Hn. apply transient_failures_tail. exact Hfail.
    + rewrite pause_keeps_invocations, Hn in He2, Hcount.
      exists e2, lat2, w'. split; [|split; [exact Hw'|lia]].
      rewrite <- He2. f_equal. lia.
Qed.

(** X8.  If the service keeps failing with transient errors, the retry
    mechanism gives up after exactly [maxRetries] calls and rejects with the
    error of the last call. *)
Theorem retry_gives_up_after_maxRetries (w : World) :
  0 < maxRetries self ->
  transient_failures (searchHandler definition) q cfg (n w) (Z.to_nat (maxRetries self)) ->
  exists e latency w',
    searchHandler definition q cfg (n w + Z.to_nat (maxRetries self) - 1)%nat
    = (Rejected e, latency)
    /\ retry_execute self fn w = (Rejected e, w')
    /\ n w' = (n w + Z.to_nat (maxRetries self))%nat.
Proof.
  intros Hpos Hfail. unfold retry_execute.
  destruct (Z.to_nat (maxRetries self)) as [|m] eqn:Hm; [lia|].
  destruct (retry_loop_gives_up m 1 undefined_error w ltac:(lia) Hfail)
    as (e & lat & w' & He & Hw' & Hcount).
  exists e, lat, w'. split; [|split; assumption].
  rewrite <- He. f_equal. lia.
Qed.

End RetryMore.

Section RetryWitnesses.

Import ErrorHandling Spec Vocabulary.

Lemma retry_attempts_bounded_witness :
  let w' := snd (retry_execute defaultRetryMechanism
                   (call_handler flaky_jira "deploy" jira_config) quiet_world) in
  0 < maxRetries defaultRetryMechanism
  /\ (invocations "jira" w' <= 0 + 3)%nat
  /\ (0 < invocations "jira" w')%nat.
Proof.
  intros w'.
  assert (Hpos : 0 < maxRetries defaultRetryMechanism) by reflexivity.
  destruct (retry_attempts_bounded defaultRetryMechanism flaky_jira "deploy"
              jira_config quiet_world) as [Hle Hlt].
  split; [exact Hpos|]. split; [exact Hle|]. apply Hlt. exact Hpos.
Defined.

Lemma retry_first_attempt_final_witness :
  let w := mkWorld 0 ["jira"%string] (fun _ => 0%Q) O in
  let task := call_handler flaky_jira "deploy" jira_config in
  0 < maxRetries defaultRetryMechanism
  /\ fst (task w) = Fulfilled (VArray [sample_result])
  /\ retry_execute defaultRetryMechanism task w = task w.
Proof.
  intros w task.
  assert (Hpos : 0 < maxRetries defaultRetryMechanism) by reflexivity.
  assert (Hfirst : match fst (task w) with
                   | Fulfilled _ => True
                   | Rejected e => IntegrationUtils.isTransientError e = false
                   end) by exact I.
  split; [exact Hpos|]. split; [reflexivity|].
  exact (retry_first_attempt_final defaultRetryMechanism task w Hpos Hfirst).
Defined.

Lemma retry_until_success_witness :
  (1 < Z.to_nat (maxRetries defaultRetryMechanism))%nat
  /\ transient_failures flaky_search "deploy" jira_config 0 1
  /\ exists w',
       retry_execute defaultRetryMechanism
         (call_handler flaky_jira "deploy" jira_config) quiet_world
       = (Fulfilled (VArray [sample_result]), w')
       /\ invocations "jira" w' = 2%nat.
Proof.
  assert (Hk : (1 < Z.to_nat (maxRetries defaultRetryMechanism))%nat)
    by (vm_compute; lia).
  assert (Hfail : transient_failures flaky_search "deploy" jira_config 0 1).
  { intros i Hi. exists service_unavailable, 120.
    destruct i; [split; reflexivity|lia]. }
  split; [exact Hk|]. split; [exact Hfail|].
  exact (retry_until_success defaultRetryMechanism flaky_jira "deploy" jira_config
           quiet_world 1 (VArray [sample_result]) 80 Hk Hfail eq_refl).
Defined.

Lemma retry_gives_up_after_maxRetries_witness :
  0 < maxRetries defaultRetryMechanism
  /\ transient_failures failing_search "deploy" jira_config 0 3
  /\ exists w',
       retry_execute defaultRetryMechanism
         (call_handler failing_jira "deploy" jira_config) quiet_world
       = (Rejected service_unavailable, w')
       /\ invocations "jira" w' = 3%nat.
Proof.
  assert (Hpos : 0 < maxRetries defaultRetryMechanism) by reflexivity.
  assert (Hfail : transient_failures failing_search "deploy" jira_config 0 3).
  { intros i Hi. exists service_unavailable, 100. split; reflexivity. }
  split; [exact Hpos|]. split; [exact Hfail|].
  destruct (retry_gives_up_after_maxRetries defaultRetryMechanism failing_jira
              "deploy" jira_config quiet_world Hpos Hfail)
    as (e & latency & w' & He & Hw' & Hcount).
  exists w'. injection He as <- _. split; [exact Hw'|exact Hcount].
Defined.

End RetryWitnesses.

Section RetryDelay.

Import ErrorHandling Spec.

Local Open Scope Q_scope.





End RetryDelay.

(** ** integrations/utils.js: error messages *)

Section ApiErrors.

Import IntegrationUtils.



End ApiErrors.

(** ** Tokenizer *)

Section Tokenizer.

Import RelevanceScorer Vocabulary.

Lemma char_cleaned c :
  JS.is_space (strip_punctuation (lower c)) || token_char (strip_punctuation (lower c))
  = true.
Proof.
  destruct c as [b0 b1 b2 b3 b4 b5 b6 b7].
  destruct b0, b1, b2, b3, b4, b5, b6, b7; reflexivity.
Qed.

Lemma token_char_fixed c :
  token_char c || Ascii.eqb c " " = true ->
  strip_punctuation (lower c) = c.
Proof.
  destruct c as [b0 b1 b2 b3 b4 b5 b6 b7].
  destruct b0, b1, b2, b3, b4, b5, b6, b7; intros H; try reflexivity; discriminate H.
Qed.

Lemma token_char_not_space c : token_char c = true -> JS.is_space c = false.
Proof.
  destruct c as [b0 b1 b2 b3 b4 b5 b6 b7].
  destruct b0, b1, b2, b3, b4, b5, b6, b7; intros H; try reflexivity; discriminate H.
Qed.

Lemma lower_idempotent c : lower (lower c) = lower c.
Proof.
  destruct c as [b0 b1 b2 b3 b4 b5 b6 b7].
  destruct b0, b1, b2, b3, b4, b5, b6, b7; reflexivity.
Qed.

Lemma string_forallb_append p s t :
  string_forallb p (String.append s t) = string_forallb p s && string_forallb p t.
Proof.
  induction s as [|c s IH]; simpl; [reflexivity|].
  rewrite IH. apply andb_assoc.
Qed.

Lemma string_forallb_rev p acc s :
  string_forallb p (JS.rev_string acc s) = string_forallb p s && string_forallb p acc.
Proof.
  revert acc. induction s as [|c s IH]; intros acc; simpl; [reflexivity|].
  rewrite IH. simpl. destruct (p c), (string_forallb p s); reflexivity.
Qed.

Lemma string_forallb_impl (p p' : ascii -> bool) s :
  (forall c, p c = true -> p' c = true) ->
  string_forallb p s = true -> string_forallb p' s = true.
Proof.
  intros Hpp. induction s as [|c s IH]; simpl; [reflexivity|].
  intros H. apply andb_true_iff in H as [Hc Hs].
  rewrite (Hpp c Hc), (IH Hs). reflexivity.
Qed.

Lemma cleaned_text text :
  string_forallb (fun c => JS.is_space c || token_char c)
    (map_string strip_punctuation (map_string lower text)) = true.
Proof.
  induction text as [|c text IH]; simpl; [reflexivity|].
  rewrite char_cleaned, IH. reflexivity.
Qed.

Lemma split_ws_pieces cur in_ws s :
  string_forallb token_char cur = true ->
  string_forallb (fun c => JS.is_space c || token_char c) s = true ->
  Forall (fun piece => string_forallb token_char piece = true) (split_ws cur in_ws s).
Proof.
  revert cur in_ws. induction s as [|c s IH]; intros cur in_ws Hcur Hs; simpl.
  - constructor; [|constructor]. rewrite string_forallb_rev. simpl.
    rewrite andb_true_r. exact Hcur.
  - simpl in Hs. apply andb_true_iff in Hs as [Hc Hs].
    destruct (JS.is_space c) eqn:Hsp.
    + destruct in_ws.
      * apply IH; assumption.
      * constructor.
        -- rewrite string_forallb_rev. simpl. rewrite andb_true_r. exact Hcur.
        -- apply IH; [reflexivity|assumption].
    + apply IH; [|assumption]. simpl in *. rewrite Hc, Hcur. reflexivity.
Qed.

Lemma keep_token_spec token :
  keep_token token = true ->
  (1 < String.length token)%nat /\ ~ In token STOP_WORDS.
Proof.
  unfold keep_token. intros H. apply andb_true_iff in H as [Hlen Hstop].
  split; [apply Nat.ltb_lt; exact Hlen|].
  intros Hin. apply negb_true_iff in Hstop.
  unfold IntegrationUtils.includes_string in Hstop.
  assert (Hex : existsb (String.eqb token) STOP_WORDS = true).
  { apply existsb_exists. exists token. split; [exact Hin|apply String.eqb_refl]. }
  congruence.
Qed.

Lemma tokenize_tokens text :
  Forall (fun token => keep_token token = true
                       /\ string_forallb token_char token = true)
    (tokenize text).
Proof.
  unfold tokenize. destruct (String.eqb text ""); [constructor|].
  apply List.Forall_forall. intros token Hin. apply filter_In in Hin as [Hin Hkeep].
  split; [exact Hkeep|].
  assert (Hp := split_ws_pieces EmptyString false _ eq_refl (cleaned_text text)).
  rewrite List.Forall_forall in Hp. apply (Hp token Hin).
Qed.

(** X11.  Every token that [tokenize] returns has at least two characters,
    is not a stop word, and consists of lower-case letters, digits and
    underscores only. *)
Theorem tokens_are_clean (text : string) :
  Forall (fun token =>
            (1 < String.length token)%nat
            /\ ~ In token STOP_WORDS
            /\ string_forallb token_char token = true)
    (tokenize text).
Proof.
  eapply Forall_impl; [apply tokenize_tokens|].
  intros token [Hkeep Hchars]. destruct (keep_token_spec token Hkeep) as [Hlen Hstop].
  repeat split; assumption.
Qed.

Lemma map_string_lower_empty text :
  String.eqb (map_string lower text) "" = String.eqb text "".
Proof. destruct text; reflexivity. Qed.

Lemma map_string_lower_idempotent text :
  map_string lower (map_string lower text) = map_string lower text.
Proof.
  induction text as [|c text IH]; simpl; [reflexivity|].
  rewrite lower_idempotent, IH. reflexivity.
Qed.

Lemma tokenize_lower text : tokenize (map_string lower text) = tokenize text.
Proof.
  unfold tokenize. rewrite map_string_lower_empty, map_string_lower_idempotent.
  reflexivity.
Qed.

(** X12.  Tokenization does not see letter case: two texts that are equal
    once lower-cased have the same tokens. *)
Theorem tokenize_ignores_case (text text' : string) :
  map_string lower text = map_string lower text' ->
  tokenize text = tokenize text'.
Proof.
  intros H. rewrite <- (tokenize_lower text), <- (tokenize_lower text'), H.
  reflexivity.
Qed.

Lemma tokenize_ignores_case_witness :
  map_string lower "Deploy NOTES, v2" = map_string lower "deploy notes, V2"
  /\ tokenize "Deploy NOTES, v2" = tokenize "deploy notes, V2"
  /\ tokenize "Deploy NOTES, v2" = ["deploy"; "notes"; "v2"]%string.
Proof.
  assert (H : map_string lower "Deploy NOTES, v2" = map_string lower "deploy notes, V2")
    by reflexivity.
  split; [exact H|]. split; [|reflexivity].
  exact (tokenize_ignores_case _ _ H).
Defined.

Lemma rev_string_rev a b s :
  JS.rev_string a (JS.rev_string b s) = JS.rev_string (String.append s a) b.
Proof.
  revert a b. induction s as [|c s IH]; intros a b; simpl; [reflexivity|].
  rewrite IH. reflexivity.
Qed.

Lemma split_ws_token cur token rest :
  string_forallb token_char token = true ->
  split_ws cur false (String.append token rest)
  = split_ws (JS.rev_string cur token) false rest.
Proof.
  revert cur. induction token as [|c token IH]; intros cur H; simpl; [reflexivity|].
  simpl in H. apply andb_true_iff in H as [Hc Ht].
  rewrite (token_char_not_space c Hc). apply IH. exact Ht.
Qed.

Lemma split_ws_first cur in_ws token rest :
  token <> EmptyString ->
  string_forallb token_char token = true ->
  split_ws cur in_ws (String.append token rest)
  = split_ws (JS.rev_string cur token) false rest.
Proof.
  intros Hne H. destruct token as [|c token]; [contradiction|].
  simpl in *. apply andb_true_iff in H as [Hc Ht].
  rewrite (token_char_not_space c Hc). apply split_ws_token. exact Ht.
Qed.

Lemma append_empty_r s : String.append s EmptyString = s.
Proof.
  induction s as [|c s IH]; [reflexivity|].
  change (String c (String.append s EmptyString) = String c s). f_equal. exact IH.
Qed.

Lemma split_ws_join tokens :
  tokens <> [] ->
  Forall (fun token => token <> EmptyString
                       /\ string_forallb token_char token = true) tokens ->
  forall in_ws, split_ws EmptyString in_ws (join " " tokens) = tokens.
Proof.
  induction tokens as [|t tokens IH]; intros Hne Hall in_ws; [contradiction|].
  inversion Hall as [|? ? [Ht Hc] Hrest]; subst.
  destruct tokens as [|t' tokens].
  - simpl. rewrite <- (append_empty_r t) at 1.
    rewrite split_ws_first by assumption. simpl.
    rewrite rev_string_rev. simpl. rewrite append_empty_r. reflexivity.
  - change (join " " (t :: t' :: tokens))
      with (String.append t (String.append " " (join " " (t' :: tokens)))).
    rewrite split_ws_first by assumption. simpl.
    rewrite rev_string_rev. simpl. rewrite append_empty_r.
    f_equal. apply IH; [discriminate|exact Hrest].
Qed.

Lemma join_chars tokens :
  Forall (fun token => string_forallb token_char token = true) tokens ->
  string_forallb (fun c => token_char c || Ascii.eqb c " ") (join " " tokens) = true.
Proof.
  induction 1 as [|t tokens Ht _ IH]; [reflexivity|].
  assert (Ht' : string_forallb (fun c => token_char c || Ascii.eqb c " ") t = true).
  { eapply string_forallb_impl; [|exact Ht]. intros c Hc. rewrite Hc. reflexivity. }
  destruct tokens as [|t' tokens]; [exact Ht'|].
  change (join " " (t :: t' :: tokens))
    with (String.append t (String.append " " (join " " (t' :: tokens)))).
  rewrite !string_forallb_append, Ht', IH. reflexivity.
Qed.

Lemma cleaned_fixed s :
  string_forallb (fun c => token_char c || Ascii.eqb c " ") s = true ->
  map_string strip_punctuation (map_string lower s) = s.
Proof.
  induction s as [|c s IH]; simpl; [reflexivity|].
  intros H. apply andb_true_iff in H as [Hc Hs].
  rewrite (token_char_fixed c Hc), (IH Hs). reflexivity.
Qed.

Lemma filter_all {A} (p : A -> bool) l :
  Forall (fun x => p x = true) l -> List.filter p l = l.
Proof.
  induction 1 as [|x l Hx _ IH]; simpl; [reflexivity|]. rewrite Hx, IH. reflexivity.
Qed.

(** X13.  Tokens survive a round trip: joining the tokens of a text with
    spaces and tokenizing again gives the same tokens. *)
Theorem tokenize_join_roundtrip (text : string) :
  tokenize (join " " (tokenize text)) = tokenize text.
Proof.
  assert (Hall := tokenize_tokens text).
  destruct (tokenize text) as [|t tokens] eqn:Htok; [reflexivity|].
  rewrite <- Htok in *.
  assert (Hne : tokenize text <> []) by (rewrite Htok; discriminate).
  assert (Hchars : Forall (fun token => string_forallb token_char token = true)
                     (tokenize text)).
  { eapply Forall_impl; [exact Hall|]. intros token [_ H]. exact H. }
  assert (Hnonempty : Forall (fun token => token <> EmptyString
                                /\ string_forallb token_char token = true)
                        (tokenize text)).
  { eapply Forall_impl; [exact Hall|]. intros token [Hk H]. split; [|exact H].
    destruct (keep_token_spec token Hk) as [Hlen _].
    intros ->. simpl in Hlen. lia. }
  assert (Hkeep : Forall (fun token => keep_token token = true) (tokenize text)).
  { eapply Forall_impl; [exact Hall|]. intros token [H _]. exact H. }
  unfold tokenize at 1.
  rewrite (cleaned_fixed _ (join_chars _ Hchars)).
  rewrite (split_ws_join _ Hne Hnonempty).
  rewrite (filter_all _ _ Hkeep).
  destruct (String.eqb_spec (join " " (tokenize text)) ""); [|reflexivity].
  exfalso.
  assert (Hs := split_ws_join _ Hne Hnonempty false). rewrite e in Hs. simpl in Hs.
  rewrite Htok in Hs. injection Hs as Ht _.
  rewrite Htok in Hnonempty. inversion Hnonempty as [|? ? [Hnt _] _]. congruence.
Qed.

End Tokenizer.

(** ** BM25 and recency, continued *)

Section ScorerMore.

Import RelevanceScorer Spec Vocabulary.

Local Open Scope R_scope.

Lemma fold_left_sum (g : string -> R) l a :
  fold_left (fun score u => score + g u) l a = a + sum_scores g l.
Proof.
  revert a. induction l as [|u l IH]; intros a; simpl; [lra|].
  rewrite IH. unfold sum_scores. simpl. lra.
Qed.

Lemma sum_scores_zero g l : (forall u, In u l -> g u = 0) -> sum_scores g l = 0.
Proof.
  induction l as [|u l IH]; intros H; simpl; [reflexivity|].
  rewrite (H u (or_introl eq_refl)), IH; [lra|].
  intros v Hv. apply H. right. exact Hv.
Qed.

Lemma bm25_as_sum q d all avg :
  calculateBM25Score q d all avg
  = if (List.length d =? 0)%nat then 0
    else sum_scores (fun u => term_score u d all avg) q.
Proof.
  unfold calculateBM25Score. destruct (List.length d =? 0)%nat; [reflexivity|].
  rewrite fold_left_sum. lra.
Qed.

Lemma term_score_absent u d all avg :
  term_frequency u d = O -> term_score u d all avg = 0.
Proof. intros H. unfold term_score. rewrite H. reflexivity. Qed.

Lemma bm25_absent_terms queryTerms d all avg :
  (forall u, In u queryTerms -> term_frequency u d = O) ->
  calculateBM25Score queryTerms d all avg = 0.
Proof.
  intros H. rewrite bm25_as_sum. destruct (List.length d =? 0)%nat; [reflexivity|].
  apply sum_scores_zero. intros u Hu. apply term_score_absent, H, Hu.
Qed.

(** X14.  A document in which no query term occurs scores 0, whatever the
    corpus; in particular a document without tokens and an empty query. *)
Theorem bm25_zero_without_query_terms
    (queryTerms d : list string) (all : list (list string)) (avg : R) :
  (forall u, In u queryTerms -> term_frequency u d = O) ->
  calculateBM25Score queryTerms d all avg = 0.
Proof.
  intros H. rewrite bm25_as_sum.
  destruct (List.length d =? 0)%nat; [reflexivity|].
  apply sum_scores_zero. intros u Hu.
  unfold term_score. rewrite (H u Hu). reflexivity.
Qed.

Lemma bm25_zero_without_query_terms_witness :
  let q := ["deploy"; "pipeline"]%string in
  let d := ["meeting"; "minutes"]%string in
  (forall u, In u q -> term_frequency u d = O)
  /\ calculateBM25Score q d [d; ["deploy"; "guide"]%string] 2 = 0.
Proof.
  intros q d.
  assert (H : forall u, In u q -> term_frequency u d = O).
  { intros u [<-|[<-|[]]]; reflexivity. }
  split; [exact H|]. apply bm25_zero_without_query_terms. exact H.
Defined.

Lemma sum_scores_filter g (p : string -> bool) l :
  (forall u, p u = false -> g u = 0) ->
  sum_scores g (List.filter p l) = sum_scores g l.
Proof.
  intros H. induction l as [|u l IH]; simpl; [reflexivity|].
  destruct (p u) eqn:Hp; simpl; rewrite IH; [reflexivity|].
  rewrite (H u Hp). lra.
Qed.

(** X15.  Only the query terms that occur in the document, and in some
    document of the corpus, take part in its score: the loop skips every
    other term without touching [score], so the score is that of the query
    with those terms left out, the remaining ones in their order. *)
Theorem bm25_skips_absent_terms
    (queryTerms d : list string) (all : list (list string)) (avg : R) :
  calculateBM25Score queryTerms d all avg
  = calculateBM25Score
      (List.filter
         (fun term => (0 <? term_frequency term d)%nat
                      && negb (docsWithTerm term all =? 0)%nat)
         queryTerms) d all avg.
Proof.
  rewrite !bm25_as_sum. destruct (List.length d =? 0)%nat; [reflexivity|].
  symmetry. apply sum_scores_filter.
  intros u Hu. unfold term_score.
  destruct (0 <? term_frequency u d)%nat; [|reflexivity].
  destruct (docsWithTerm u all =? 0)%nat; [reflexivity|discriminate].
Qed.

(** X16.  The term counts are kept in a plain object, so the query terms
    [constructor] and [__proto__], which every object inherits, never add to
    the score: the score is that of the query without them. *)
Theorem bm25_ignores_inherited_keys
    (queryTerms d : list string) (all : list (list string)) (avg : R) :
  calculateBM25Score queryTerms d all avg
  = calculateBM25Score
      (List.filter (fun term => negb (inherited_key term)) queryTerms) d all avg.
Proof.
  rewrite !bm25_as_sum. destruct (List.length d =? 0)%nat; [reflexivity|].
  symmetry. apply sum_scores_filter.
  intros u Hu. apply negb_false_iff in Hu.
  apply term_score_absent. unfold term_frequency. rewrite Hu. reflexivity.
Qed.

Lemma recency_exponent_monotone now ms1 ms2 :
  (ms1 <= ms2)%Z ->
  - ((IZR now - IZR ms1) / (1000 * 60 * 60 * 24)) * recencyDecayPerDay
  <= - ((IZR now - IZR ms2) / (1000 * 60 * 60 * 24)) * recencyDecayPerDay.
Proof.
  intros H. apply IZR_le in H. unfold recencyDecayPerDay. lra.
Qed.

Lemma exp_le x y : x <= y -> exp x <= exp y.
Proof.
  intros [H | ->]; [left; apply exp_increasing; exact H|right; reflexivity].
Qed.

(** X17.  For parsable dates the recency boost lies between 0.1 and 1, never
    decreases when the date is more recent, and is exactly 1 for a date that
    is not in the past. *)
Theorem recency_boost_monotone (now ms1 ms2 : Z) :
  (ms1 <= ms2)%Z ->
  num_le (calculateRecencyBoost now (Timestamp ms1))
         (calculateRecencyBoost now (Timestamp ms2))
  /\ num_le (Fin (1 / 10)) (calculateRecencyBoost now (Timestamp ms1))
  /\ num_le (calculateRecencyBoost now (Timestamp ms2)) (Fin 1)
  /\ ((now <= ms2)%Z -> calculateRecencyBoost now (Timestamp ms2) = Fin 1).
Proof.
  intros H. rewrite !recency_boost_valid. simpl num_le.
  split; [|split; [|split]].
  - apply Rle_max_compat_l, Rle_min_compat_l, exp_le, recency_exponent_monotone, H.
  - apply Rmax_l.
  - apply Rmax_lub; [lra|apply Rmin_l].
  - intros Hfuture. f_equal.
    assert (He : 1 <= exp (- ((IZR now - IZR ms2) / (1000 * 60 * 60 * 24))
                          * recencyDecayPerDay)).
    { rewrite <- exp_0. apply exp_le. apply IZR_le in Hfuture.
      unfold recencyDecayPerDay. lra. }
    rewrite (Rmin_left _ _ He). apply Rmax_right. lra.
Qed.

Lemma recency_boost_monotone_witness :
  (1600000000000 <= 1700000000000)%Z
  /\ num_le (calculateRecencyBoost 1700000000000 (Timestamp 1600000000000))
            (calculateRecencyBoost 1700000000000 (Timestamp 1700000000000))
  /\ calculateRecencyBoost 1700000000000 (Timestamp 1700000000000) = Fin 1.
Proof.
  assert (H : (1600000000000 <= 1700000000000)%Z) by lia.
  destruct (recency_boost_monotone 1700000000000 _ _ H) as (Hm & _ & _ & Hf).
  split; [exact H|]. split; [exact Hm|]. apply Hf. lia.
Defined.

Lemma exp_4_lower : 16 <= exp 4.
Proof.
  assert (H2 : 2 <= exp 1) by (generalize (exp_ineq1_le 1); lra).
  replace 4 with (1 + 1 + (1 + 1)) by lra.
  rewrite !exp_plus.
  assert (H4 : 4 <= exp 1 * exp 1) by nra.
  set (y := exp 1 * exp 1) in *. clearbody y. nra.
Qed.

(** X18.  A result last updated 400 days ago or earlier gets exactly the
    floor 0.1 as its recency boost. *)
Theorem recency_boost_floor_for_old_results (now ms : Z) :
  (400 * (1000 * 60 * 60 * 24) <= now - ms)%Z ->
  calculateRecencyBoost now (Timestamp ms) = Fin (1 / 10).
Proof.
  intros H. rewrite recency_boost_valid. f_equal.
  apply IZR_le in H. rewrite minus_IZR, mult_IZR in H.
  repeat rewrite mult_IZR in H.
  set (x := - ((IZR now - IZR ms) / (1000 * 60 * 60 * 24)) * recencyDecayPerDay).
  assert (Hx : x <= Ropp 4).
  { unfold x, recencyDecayPerDay. lra. }
  assert (He : exp x <= / 16).
  { apply Rle_trans with (exp (Ropp 4)); [apply exp_le, Hx|].
    rewrite exp_Ropp. apply Rinv_le_contravar; [lra|apply exp_4_lower]. }
  assert (Hpos := exp_pos x).
  rewrite Rmin_right by lra. apply Rmax_left. lra.
Qed.

Lemma recency_boost_floor_for_old_results_witness :
  (400 * (1000 * 60 * 60 * 24) <= 1700000000000 - 1600000000000)%Z
  /\ calculateRecencyBoost 1700000000000 (Timestamp 1600000000000) = Fin (1 / 10).
Proof.
  assert (H : (400 * (1000 * 60 * 60 * 24) <= 1700000000000 - 1600000000000)%Z) by lia.
  split; [exact H|]. apply recency_boost_floor_for_old_results. exact H.
Defined.

End ScorerMore.

(** ** Sorting and ranking *)

Section Ranking.

Import RelevanceScorer Spec Vocabulary Main.

Lemma sort_insert_sorted {A} (after : A -> A -> bool) (R : A -> A -> Prop)
    (P : A -> Prop) :
  (forall x y, P x -> P y -> after x y = true -> R y x) ->
  (forall x y, P x -> P y -> after x y = false -> R x y) ->
  (forall x y z, P x -> P y -> P z -> R x y -> R y z -> R x z) ->
  forall x l, P x -> Forall P l -> StronglySorted R l ->
              StronglySorted R (sort_insert after x l).
Proof.
  intros Hgt Hle Htrans x l Hx. induction l as [|y l IH]; intros HP Hs; simpl.
  - constructor; constructor.
  - apply Forall_cons in HP as [Hy HP].
    apply StronglySorted_inv in Hs as [Hs Hall].
    destruct (after x y) eqn:Ha.
    + constructor; [apply IH; assumption|].
      eapply Permutation_Forall; [apply Permutation_sym, sort_insert_perm|].
      constructor; [apply Hgt; assumption|exact Hall].
    + constructor; [constructor; assumption|].
      constructor; [apply Hle; assumption|].
      rewrite List.Forall_forall in *. intros z Hz.
      apply (Htrans x y z); auto.
Qed.

Lemma js_sort_sorted {A} (after : A -> A -> bool) (R : A -> A -> Prop)
    (P : A -> Prop) :
  (forall x y, P x -> P y -> after x y = true -> R y x) ->
  (forall x y, P x -> P y -> after x y = false -> R x y) ->
  (forall x y z, P x -> P y -> P z -> R x y -> R y z -> R x z) ->
  forall l, Forall P l -> StronglySorted R (js_sort after l).
Proof.
  intros Hgt Hle Htrans l. induction l as [|x l IH]; intros HP; simpl.
  - constructor.
  - apply Forall_cons in HP as [Hx HP].
    apply (sort_insert_sorted after R P); try assumption.
    + eapply Permutation_Forall; [apply Permutation_sym, js_sort_perm|exact HP].
    + apply IH. exact HP.
Qed.

Lemma by_date_after_true x y : by_date_after x y = true -> newer_first y x.
Proof.
  unfold by_date_after, newer_first.
  destruct (updated x), (updated y); intros H; try discriminate; try exact I.
  apply Z.ltb_lt in H. lia.
Qed.

Lemma by_date_after_false x y : by_date_after x y = false -> newer_first x y.
Proof.
  unfold by_date_after, newer_first.
  destruct (updated x), (updated y); intros H; try discriminate; try exact I.
  apply Z.ltb_ge in H. lia.
Qed.

Lemma newer_first_trans x y z : newer_first x y -> newer_first y z -> newer_first x z.
Proof.
  unfold newer_first.
  destruct (updated x), (updated y), (updated z); intros; try contradiction;
    try exact I; lia.
Qed.

(** X19.  [sortResultsByDate] keeps every result and orders them so that
    results with a parsable date come first, newest first, and no result
    without a parsable date stands before one that has it. *)
Theorem sortResultsByDate_sorted (results : list SearchResult) :
  Permutation (sortResultsByDate results) results
  /\ StronglySorted newer_first (sortResultsByDate results).
Proof.
  split; [apply js_sort_perm|].
  apply (js_sort_sorted by_date_after newer_first (fun _ => True)).
  - intros x y _ _. apply by_date_after_true.
  - intros x y _ _. apply by_date_after_false.
  - intros x y z _ _ _. apply newer_first_trans.
  - apply List.Forall_forall. intros; exact I.
Qed.

Lemma sort_insert_dated x l undated_part :
  dated x = true ->
  Forall (fun r => dated r = false) undated_part ->
  sort_insert by_date_after x (l ++ undated_part)
  = sort_insert by_date_after x l ++ undated_part.
Proof.
  intros Hx Hu. induction l as [|y l IH]; simpl.
  - destruct undated_part as [|u us]; [reflexivity|].
    apply Forall_cons in Hu as [Hu _]. simpl.
    unfold by_date_after, dated in *.
    destruct (updated x); try discriminate. destruct (updated u); try discriminate;
      reflexivity.
  - destruct (by_date_after x y); [rewrite IH|]; reflexivity.
Qed.

Lemma sort_insert_undated x l undated_part :
  dated x = false ->
  Forall (fun r => dated r = true) l ->
  Forall (fun r => dated r = false) undated_part ->
  sort_insert by_date_after x (l ++ undated_part) = l ++ x :: undated_part.
Proof.
  intros Hx Hl Hu. induction Hl as [|y l Hy _ IH]; simpl.
  - destruct undated_part as [|u us]; [reflexivity|].
    apply Forall_cons in Hu as [Hu _]. simpl.
    unfold by_date_after, dated in *.
    destruct (updated x); try discriminate; destruct (updated u); try discriminate;
      reflexivity.
  - replace (by_date_after x y) with true; [rewrite IH; reflexivity|].
    unfold by_date_after, dated in *.
    destruct (updated x); try discriminate; destruct (updated y); try discriminate;
      reflexivity.
Qed.

Lemma filter_dated_all l :
  Forall (fun r => dated r = true) (List.filter dated l)
  /\ Forall (fun r => dated r = false) (List.filter (fun r => negb (dated r)) l).
Proof.
  split; apply List.Forall_forall; intros r Hr; apply filter_In in Hr as [_ Hr];
    [exact Hr|apply negb_true_iff; exact Hr].
Qed.

(** X20.  The date sort is the sort of the results that have a parsable
    date, followed by the other results in their original order: results
    with a missing or unparsable date go last and keep their relative
    order. *)
Theorem sortResultsByDate_undated_last (results : list SearchResult) :
  sortResultsByDate results
  = sortResultsByDate (List.filter dated results)
    ++ List.filter (fun r => negb (dated r)) results.
Proof.
  unfold sortResultsByDate. induction results as [|x l IH]; [reflexivity|].
  simpl js_sort at 1. rewrite IH. simpl List.filter.
  destruct (filter_dated_all l) as [Hd Hu].
  destruct (dated x) eqn:Hx; simpl.
  - apply sort_insert_dated; assumption.
  - apply sort_insert_undated; try assumption.
    eapply Permutation_Forall; [apply Permutation_sym, js_sort_perm|exact Hd].
Qed.

(** The order the code documents for
    [[null, '2024-01-01', '2023-01-01', 'not-a-date']]. *)
Example sortResultsByDate_example :
  let r u := mkResult "" "" (TagText "") "" "" "" "" "" u None in
  sortResultsByDate
    [r NoDate; r (Timestamp 1704067200000); r (Timestamp 1672531200000);
     r (Unparsable "not-a-date")]
  = [r (Timestamp 1704067200000); r (Timestamp 1672531200000); r NoDate;
     r (Unparsable "not-a-date")].
Proof. reflexivity. Qed.

Lemma clear_score_scored now q all avg r tokens :
  clear_score (score_result now q all avg r tokens) = clear_score r.
Proof. reflexivity. Qed.

(** X21.  Scoring neither drops nor duplicates nor rewrites a result: up to
    the [relevanceScore] property, the list it returns is a rearrangement of
    the list it was given. *)
Theorem relevance_scores_keep_results
    (now : Z) (results : list SearchResult) (query : string) :
  Permutation
    (List.map clear_score (calculateRelevanceScores now results query))
    (List.map clear_score results).
Proof.
  unfold calculateRelevanceScores.
  destruct results as [|r0 rs] eqn:Hres; [reflexivity|]. rewrite <- Hres.
  replace (List.length results =? 0)%nat with false by (subst results; reflexivity).
  destruct (String.eqb query ""); [reflexivity|].
  destruct (List.length (tokenize query) =? 0)%nat; [reflexivity|].
  rewrite map2_map.
  rewrite (Permutation_map clear_score (js_sort_perm _ _)).
  rewrite List.map_map.
  erewrite List.map_ext; [reflexivity|].
  intros r. apply clear_score_scored.
Qed.

Lemma score_result_number now q all avg r tokens :
  parsable r ->
  exists x, score_of (score_result now q all avg r tokens) = Fin x.
Proof.
  intros Hd. unfold score_result, score_of.
  destruct (recency_boost_range now (updated r) Hd) as (x & -> & _).
  simpl. eexists. reflexivity.
Qed.

(** X22.  When every result has a missing or parsable date and the query has
    at least one term, the results come back sorted by score, highest
    first. *)
Theorem relevance_scores_sorted
    (now : Z) (results : list SearchResult) (query : string) :
  results <> [] ->
  tokenize query <> [] ->
  Forall parsable results ->
  StronglySorted (fun a c => num_le (score_of c) (score_of a))
    (calculateRelevanceScores now results query).
Proof.
  intros Hne Htok Hd. unfold calculateRelevanceScores.
  destruct results as [|r0 rs] eqn:Hres; [contradiction|]. rewrite <- Hres in *.
  replace (List.length results =? 0)%nat with false by (subst results; reflexivity).
  destruct (String.eqb_spec query "") as [->|_]; [exfalso; apply Htok; reflexivity|].
  destruct (tokenize query) as [|t ts] eqn:Hq; [contradiction|].
  simpl Nat.eqb. cbv iota. rewrite map2_map.
  apply (js_sort_sorted by_score_after _ (fun r => exists x, score_of r = Fin x)).
  - intros x y [sx Hx] [sy Hy]. unfold by_score_after. rewrite Hx, Hy. simpl.
    destruct (Rlt_dec 0 (sy - sx)); [intros _; lra|discriminate].
  - intros x y [sx Hx] [sy Hy]. unfold by_score_after. rewrite Hx, Hy. simpl.
    destruct (Rlt_dec 0 (sy - sx)); [discriminate|intros _; lra].
  - intros x y z [sx Hx] [sy Hy] [sz Hz]. rewrite Hx, Hy, Hz. simpl. lra.
  - apply Forall_map. eapply Forall_impl; [exact Hd|].
    intros r Hr. apply score_result_number. exact Hr.
Qed.

Lemma relevance_scores_sorted_witness :
  let results := [sample_result;
                  mkResult "Deploy notes" "" (TagText "") "page" "current" ""
                           "https://example.atlassian.net/wiki/x/2" "Confluence"
                           NoDate None] in
  results <> []
  /\ tokenize "deploy" <> []
  /\ Forall parsable results
  /\ StronglySorted (fun a c => num_le (score_of c) (score_of a))
       (calculateRelevanceScores 1700000000000 results "deploy").
Proof.
  intros results.
  assert (Hne : results <> []) by discriminate.
  assert (Htok : tokenize "deploy" <> []) by (vm_compute; discriminate).
  assert (Hd : Forall parsable results).
  { repeat constructor; intros raw; discriminate. }
  split; [exact Hne|]. split; [exact Htok|]. split; [exact Hd|].
  exact (relevance_scores_sorted 1700000000000 results "deploy" Hne Htok Hd).
Defined.

(** X23.  A result with a missing or parsable date in whose text no query
    term occurs gets exactly [minScore]. *)
Theorem unmatched_result_scores_minScore
    (now : Z) (results : list SearchResult) (query : string) (r : SearchResult) :
  In r results ->
  tokenize query <> [] ->
  parsable r ->
  (forall u, In u (tokenize query) -> term_frequency u (extractSearchableText r) = O) ->
  In (set_relevanceScore (Fin minScore) r)
     (calculateRelevanceScores now results query).
Proof.
  intros Hin Htok Hd Habsent. unfold calculateRelevanceScores.
  destruct results as [|r0 rs] eqn:Hres; [destruct Hin|]. rewrite <- Hres in *.
  replace (List.length results =? 0)%nat with false by (subst results; reflexivity).
  destruct (String.eqb_spec query "") as [->|_]; [exfalso; apply Htok; reflexivity|].
  destruct (tokenize query) as [|t ts] eqn:Hq; [contradiction|].
  simpl Nat.eqb. cbv iota. rewrite map2_map.
  apply (Permutation_in _ (Permutation_sym (js_sort_perm _ _))).
  apply in_map_iff. exists r. split; [|exact Hin].
  unfold score_result.
  rewrite (bm25_absent_terms _ _ _ _ Habsent).
  destruct (recency_boost_range now (updated r) Hd) as (x & -> & _).
  unfold calculateUserBoost. simpl. f_equal. f_equal.
  apply Rmax_left. unfold minScore. lra.
Qed.

Lemma unmatched_result_scores_minScore_witness :
  let other := mkResult "Meeting minutes" "" (TagText "") "page" "current" ""
                        "https://example.atlassian.net/wiki/x/3" "Confluence"
                        NoDate None in
  In other [sample_result; other]
  /\ tokenize "deploy" <> []
  /\ parsable other
  /\ In (set_relevanceScore (Fin minScore) other)
        (calculateRelevanceScores 1700000000000 [sample_result; other] "deploy").
Proof.
  intros other.
  assert (Hin : In other [sample_result; other]) by (right; left; reflexivity).
  assert (Htok : tokenize "deploy" <> []) by (vm_compute; discriminate).
  assert (Hd : parsable other) by (intros raw; discriminate).
  assert (Habsent : forall u, In u (tokenize "deploy") ->
                      term_frequency u (extractSearchableText other) = O).
  { intros u [<-|[]]. reflexivity. }
  split; [exact Hin|]. split; [exact Htok|]. split; [exact Hd|].
  exact (unmatched_result_scores_minScore 1700000000000 _ "deploy" other
           Hin Htok Hd Habsent).
Defined.

End Ranking.

(** ** Search orchestrator, continued *)

Section OrchestratorMore.

Import ErrorHandling Spec Vocabulary Main.

Lemma search_task_calls definition q cfg cb w :
  calls (snd (search_task definition q cfg cb w)) = calls w
  \/ calls (snd (search_task definition q cfg cb w)) = id definition :: calls w.
Proof.
  unfold search_task, execute.
  destruct (gate (Date_now w) cb); [left; reflexivity|].
  unfold call_handler. destruct (searchHandler _ _ _ _). right. reflexivity.
Qed.

(** A provider that is not dispatched changes neither the task list nor the
    breakers nor the world. *)
Lemma dispatch_one_skip t0 q filters integrations acc definition :
  dispatched filters integrations definition = false ->
  let acc' := dispatch_one t0 q filters integrations acc definition in
  tasks acc' = tasks acc
  /\ circuitBreakers acc' = circuitBreakers acc
  /\ world acc' = world acc
  /\ List.length (validation_errors acc')
     = (List.length (validation_errors acc)
        + if candidate filters integrations definition then 1 else 0)%nat.
Proof.
  unfold dispatched, candidate, dispatch_one. intros H.
  destruct (isEnabled _); simpl in *; [|repeat split; lia].
  destruct (filterAllowed filters definition); simpl in *; [|repeat split; lia].
  apply negb_false_iff in H. rewrite H. simpl.
  repeat split. rewrite length_app. reflexivity.
Qed.

(** A dispatched provider adds one task, which is its [search_task] started
    at the instant of the loop on the breaker of its id. *)
Lemma dispatch_one_run t0 q filters integrations acc definition :
  dispatched filters integrations definition = true ->
  let cfg := config_of integrations (id definition) in
  let got := getCircuitBreaker (id definition) breaker_options (circuitBreakers acc) in
  let w0 := world acc in
  let out := search_task definition q cfg (fst got)
               (mkWorld t0 (calls w0) (entropy w0) (draws w0)) in
  let acc' := dispatch_one t0 q filters integrations acc definition in
  tasks acc'
  = tasks acc ++ [mkTask (sourceName definition) (extractor_of definition) (fst (fst out))]
  /\ validation_errors acc' = validation_errors acc
  /\ circuitBreakers acc' = <[id definition := snd (fst out)]> (snd got)
  /\ calls (world acc') = calls (snd out).
Proof.
  unfold dispatched, dispatch_one. intros H.
  apply andb_true_iff in H as [H Hm]. apply andb_true_iff in H as [He Hf].
  apply negb_true_iff in Hm. rewrite He, Hf, Hm. simpl.
  destruct (getCircuitBreaker _ _ _) as [cb breakers1]. simpl.
  destruct (search_task _ _ _ _ _) as [[promise cb'] w1]. simpl.
  repeat split.
Qed.

Lemma dispatch_one_invocations p t0 q filters integrations acc definition :
  let acc' := dispatch_one t0 q filters integrations acc definition in
  (invocations p (world acc) <= invocations p (world acc')
   <= invocations p (world acc)
      + if String.eqb p (id definition) && dispatched filters integrations definition
        then 1 else 0)%nat.
Proof.
  intros acc'. unfold acc'.
  destruct (dispatched filters integrations definition) eqn:Hd.
  - destruct (dispatch_one_run t0 q filters integrations acc definition Hd)
      as (_ & _ & _ & Hc).
    unfold invocations. rewrite Hc.
    match goal with |- context [search_task ?d ?q' ?c ?cb ?w] =>
      destruct (search_task_calls d q' c cb w) as [Hs|Hs] end; rewrite Hs; simpl.
    + lia.
    + destruct (String.eqb p (id definition)); simpl; lia.
  - destruct (dispatch_one_skip t0 q filters integrations acc definition Hd)
      as (_ & _ & Hw & _).
    rewrite Hw, andb_false_r. lia.
Qed.

Lemma build_invocations p t0 q filters integrations registry acc :
  let acc' := fold_left (dispatch_one t0 q filters integrations) registry acc in
  (invocations p (world acc) <= invocations p (world acc')
   <= invocations p (world acc)
      + List.length
          (List.filter
             (fun d => String.eqb p (id d) && dispatched filters integrations d)
             registry))%nat.
Proof.
  revert acc. induction registry as [|d registry IH]; intros acc; simpl; [lia|].
  specialize (IH (dispatch_one t0 q filters integrations acc d)). simpl in IH.
  assert (H1 := dispatch_one_invocations p t0 q filters integrations acc d).
  simpl in H1.
  destruct (String.eqb p (id d) && dispatched filters integrations d); simpl; lia.
Qed.

Lemma unique_id_filter p (g : IntegrationDefinition -> bool) registry :
  List.NoDup (List.map id registry) ->
  (List.length (List.filter (fun d => String.eqb p (id d) && g d) registry) <= 1)%nat.
Proof.
  induction registry as [|d registry IH]; intros Hnd; simpl; [lia|].
  simpl in Hnd. apply List.NoDup_cons_iff in Hnd as [Hnotin Hnd].
  destruct (String.eqb_spec p (id d)) as [->|Hne]; simpl; [|apply IH; exact Hnd].
  assert (Hnone : List.filter (fun d' => String.eqb (id d) (id d') && g d') registry = []).
  { clear IH Hnd. induction registry as [|d' registry IH]; [reflexivity|]. simpl.
    destruct (String.eqb_spec (id d) (id d')) as [Heq|_]; simpl.
    - exfalso. apply Hnotin. rewrite Heq. left. reflexivity.
    - apply IH. intros Hin. apply Hnotin. right. exact Hin. }
  destruct (g d); simpl; rewrite Hnone; simpl; lia.
Qed.

(** X24.  With distinct provider ids in the registry, one search request
    calls the search of any one provider at most once. *)
Theorem search_calls_each_provider_at_most_once
    sanitize (registry : list IntegrationDefinition) bm25 query activeFilters
    integrations (breakers : gmap string CircuitBreaker) (w : World) (p : string) :
  List.NoDup (List.map id registry) ->
  let w' := snd (search sanitize registry bm25 query activeFilters integrations
                   breakers w) in
  (invocations p w <= invocations p w' <= S (invocations p w))%nat.
Proof.
  intros Hnd w'. unfold w', search.
  destruct query as [| |flag|number|text]; simpl; try lia.
  destruct (String.eqb (JS.trim text) ""); simpl; [lia|].
  destruct integrations as [configs|reason]; simpl; [|lia].
  unfold build_tasks.
  assert (H := build_invocations p (clock w) (JS.trim text) (safeFilters activeFilters)
                 configs registry (mkDispatch [] [] breakers w)).
  assert (H1 := unique_id_filter p (dispatched (safeFilters activeFilters) configs)
                  registry Hnd).
  simpl in H. lia.
Qed.

Lemma search_calls_each_provider_at_most_once_witness :
  let w' := snd (search (fun m _ => m) sample_registry true (JS.Str "deploy") (Some [])
                   (Fulfilled sample_configs) ∅ quiet_world) in
  List.NoDup (List.map id sample_registry)
  /\ invocations "jira" w' = 1%nat
  /\ invocations "asana" w' = 0%nat
  /\ (invocations "confluence" quiet_world <= invocations "confluence" w'
      <= S (invocations "confluence" quiet_world))%nat.
Proof.
  intros w'.
  assert (Hnd : List.NoDup (List.map id sample_registry)).
  { simpl. repeat constructor; simpl; intros H;
      repeat (destruct H as [H|H]; [discriminate H|]); destruct H. }
  split; [exact Hnd|]. split; [reflexivity|]. split; [reflexivity|].
  exact (search_calls_each_provider_at_most_once (fun m _ => m) sample_registry true
           (JS.Str "deploy") (Some []) (Fulfilled sample_configs) ∅ quiet_world
           "confluence" Hnd).
Defined.

Lemma getCircuitBreaker_other name options (breakers : gmap string CircuitBreaker) p :
  p <> name ->
  snd (getCircuitBreaker name options breakers) !! p = breakers !! p.
Proof.
  intros Hne. unfold getCircuitBreaker. destruct (breakers !! name); simpl; [reflexivity|].
  apply lookup_insert_ne. congruence.
Qed.

Lemma build_skipped p t0 q filters integrations registry acc :
  (forall d, In d registry -> id d = p -> dispatched filters integrations d = false) ->
  let acc' := fold_left (dispatch_one t0 q filters integrations) registry acc in
  invocations p (world acc') = invocations p (world acc)
  /\ circuitBreakers acc' !! p = circuitBreakers acc !! p.
Proof.
  revert acc. induction registry as [|d registry IH]; intros acc Hskip; simpl;
    [split; reflexivity|].
  destruct (IH (dispatch_one t0 q filters integrations acc d)) as [Hi Hb].
  { intros d' Hd'. apply Hskip. right. exact Hd'. }
  simpl in Hi, Hb. rewrite Hi, Hb. clear IH Hi Hb.
  destruct (dispatched filters integrations d) eqn:Hd.
  - assert (Hne : p <> id d).
    { intros ->. rewrite (Hskip d (or_introl eq_refl) eq_refl) in Hd. discriminate. }
    destruct (dispatch_one_run t0 q filters integrations acc d Hd)
      as (_ & _ & Hbr & Hc).
    split.
    + assert (H := dispatch_one_invocations p t0 q filters integrations acc d).
      simpl in H. destruct (String.eqb_spec p (id d)); [contradiction|].
      simpl in H. lia.
    + rewrite Hbr, lookup_insert_ne by congruence.
      apply getCircuitBreaker_other. exact Hne.
  - destruct (dispatch_one_skip t0 q filters integrations acc d Hd)
      as (_ & Hbr & Hw & _).
    rewrite Hbr, Hw. split; reflexivity.
Qed.

(** X25.  A provider that is disabled, excluded by the filters or rejected by
    its local validation (or that is not in the registry at all) is left
    alone by a search request: its search is not called and its circuit
    breaker is neither created nor changed. *)
Theorem skipped_provider_untouched
    sanitize (registry : list IntegrationDefinition) bm25 (q : string) activeFilters
    (configs : gmap string Config) (breakers : gmap string CircuitBreaker)
    (w : World) (p : string) :
  (forall d, In d registry -> id d = p ->
     dispatched (safeFilters activeFilters) configs d = false) ->
  let '(_, breakers', w') :=
    search sanitize registry bm25 (JS.Str q) activeFilters (Fulfilled configs)
      breakers w in
  invocations p w' = invocations p w /\ breakers' !! p = breakers !! p.
Proof.
  intros Hskip. unfold search.
  destruct (String.eqb (JS.trim q) ""); [split; reflexivity|].
  unfold build_tasks.
  apply (build_skipped p (clock w) (JS.trim q) (safeFilters activeFilters) configs
           registry (mkDispatch [] [] breakers w) Hskip).
Qed.

Lemma skipped_provider_untouched_witness :
  (forall d, In d sample_registry -> id d = "asana"%string ->
     dispatched (safeFilters (Some [])) sample_configs d = false)
  /\ let '(_, breakers', w') :=
       search (fun m _ => m) sample_registry true (JS.Str "deploy") (Some [])
         (Fulfilled sample_configs) ∅ quiet_world in
     invocations "asana" w' = 0%nat
     /\ breakers' !! "asana"%string = None
     /\ breakers' !! "jira"%string <> None.
Proof.
  assert (Hskip : forall d, In d sample_registry -> id d = "asana"%string ->
                    dispatched (safeFilters (Some [])) sample_configs d = false).
  { intros d Hin Hid. simpl in Hin.
    destruct Hin as [<-|[<-|[<-|[<-|[]]]]]; try discriminate Hid. reflexivity. }
  split; [exact Hskip|].
  assert (H := skipped_provider_untouched (fun m _ => m) sample_registry true "deploy"
                 (Some []) sample_configs ∅ quiet_world "asana" Hskip).
  destruct (search (fun m _ => m) sample_registry true (JS.Str "deploy") (Some [])
              (Fulfilled sample_configs) ∅ quiet_world) as [[reply breakers'] w']
    eqn:Hsearch.
  destruct H as [Hi Hb]. split; [exact Hi|]. split; [exact Hb|].
  apply (f_equal (fun x => snd (fst x) !! "jira"%string)) in Hsearch.
  simpl in Hsearch. rewrite <- Hsearch. vm_compute. discriminate.
Defined.

End OrchestratorMore.

Section Accounting.

Import ErrorHandling Spec Vocabulary Main.

Lemma expected_candidate_candidate activeFilters configs definition :
  expected_candidate activeFilters configs definition
  = candidate (safeFilters activeFilters) configs definition.
Proof.
  unfold expected_candidate, candidate, enabled_provider, stored_config, isEnabled,
    config_of, filterAllowed, matches_active_filters, safeFilters.
  replace (default (mkConfig None ∅) (configs !! id definition))
    with (match configs !! id definition with
          | Some c => c
          | None => mkConfig None ∅
          end) by (destruct (configs !! id definition); reflexivity).
  f_equal. destruct activeFilters as [entries|]; [|reflexivity].
  rewrite safeFilters_none, safeFilters_includes. reflexivity.
Qed.

(** What one iteration of the dispatch loop files under [source]: one task
    or one validation error, under the provider's own name, if the provider
    is a candidate. *)
Lemma dispatch_one_source t0 q filters integrations acc definition source :
  let acc' := dispatch_one t0 q filters integrations acc definition in
  let of_source := fun t => String.eqb source (task_source t) in
  (entries_of source (validation_errors acc')
   + List.length (List.filter of_source (tasks acc'))
   = entries_of source (validation_errors acc)
     + List.length (List.filter of_source (tasks acc))
     + if String.eqb source (sourceName definition)
          && candidate filters integrations definition
       then 1 else 0)%nat.
Proof.
  unfold dispatch_one, candidate, entries_of.
  destruct (isEnabled _); cbn [negb orb andb];
    [|rewrite andb_false_r; cbn zeta; lia].
  destruct (filterAllowed filters definition); cbn [negb orb andb];
    [|rewrite andb_false_r; cbn zeta; lia].
  rewrite andb_true_r.
  destruct (message_truthy _).
  - cbn [tasks validation_errors]. rewrite List.filter_app, length_app.
    cbn [List.filter fst]. destruct (String.eqb source (sourceName definition)); simpl; lia.
  - destruct (getCircuitBreaker _ _ _) as [cb breakers1].
    destruct (search_task _ _ _ _ _) as [[promise cb'] w1].
    cbn [tasks validation_errors]. rewrite List.filter_app, length_app.
    cbn [List.filter task_source].
    destruct (String.eqb source (sourceName definition)); simpl; lia.
Qed.

Lemma build_source t0 q filters integrations registry acc source :
  let acc' := fold_left (dispatch_one t0 q filters integrations) registry acc in
  let of_source := fun t => String.eqb source (task_source t) in
  (entries_of source (validation_errors acc')
   + List.length (List.filter of_source (tasks acc'))
   = entries_of source (validation_errors acc)
     + List.length (List.filter of_source (tasks acc))
     + List.length
         (List.filter (fun definition => String.eqb source (sourceName definition)
                                         && candidate filters integrations definition)
            registry))%nat.
Proof.
  revert acc. induction registry as [|definition registry IH]; intros acc; cbn zeta;
    [simpl; lia|].
  cbn [fold_left List.filter].
  specialize (IH (dispatch_one t0 q filters integrations acc definition)).
  cbn zeta in IH. rewrite IH. clear IH.
  assert (H := dispatch_one_source t0 q filters integrations acc definition source).
  cbn zeta in H. rewrite H.
  destruct (String.eqb source (sourceName definition)
            && candidate filters integrations definition); simpl; lia.
Qed.

(** The collection files the error of a task under the task's own source. *)
Lemma collect_errors_source sanitize ts acc source :
  entries_of source (errors (fold_left (collect_one sanitize) ts acc))
  = (entries_of source (errors acc)
     + List.length
         (List.filter (fun t => String.eqb source (task_source t) && negb (task_ok t))
            ts))%nat.
Proof.
  revert acc. induction ts as [|t ts IH]; intros acc; [simpl; lia|].
  cbn [fold_left List.filter]. rewrite IH. unfold collect_one, task_ok, entries_of.
  destruct (task_promise t) as [value|reason].
  - destruct (task_extract t value) as [e|arr]; cbn [errors].
    + rewrite List.filter_app, length_app. cbn [List.filter fst].
      destruct (String.eqb source (task_source t)); simpl; lia.
    + rewrite andb_false_r. lia.
  - cbn [errors]. rewrite List.filter_app, length_app. cbn [List.filter fst].
    destruct (String.eqb source (task_source t)); simpl; lia.
Qed.

Lemma filter_source_split {A} (p ok : A -> bool) l :
  (List.length (List.filter (fun x => p x && ok x) l)
   + List.length (List.filter (fun x => p x && negb (ok x)) l)
   = List.length (List.filter p l))%nat.
Proof.
  induction l as [|x l IH]; simpl; [reflexivity|].
  destruct (p x), (ok x); simpl; lia.
Qed.

Lemma filter_other_source (p : IntegrationDefinition -> bool) source registry :
  ~ In source (List.map sourceName registry) ->
  List.filter (fun definition => String.eqb source (sourceName definition) && p definition)
    registry = [].
Proof.
  induction registry as [|definition registry IH]; intros Hn; [reflexivity|].
  cbn [List.filter]. simpl in Hn.
  destruct (String.eqb_spec source (sourceName definition)) as [->|_].
  - exfalso. apply Hn. left. reflexivity.
  - simpl. apply IH. intros H. apply Hn. right. exact H.
Qed.

Lemma filter_own_source (p : IntegrationDefinition -> bool) definition registry :
  List.NoDup (List.map sourceName registry) ->
  In definition registry ->
  List.length
    (List.filter (fun other => String.eqb (sourceName definition) (sourceName other)
                               && p other) registry)
  = if p definition then 1%nat else 0%nat.
Proof.
  induction registry as [|other registry IH]; intros Hnd Hin; [destruct Hin|].
  simpl in Hnd. apply List.NoDup_cons_iff in Hnd as [Hfresh Hnd].
  cbn [List.filter]. destruct Hin as [->|Hin].
  - rewrite String.eqb_refl. cbn [andb].
    destruct (p definition); cbn [List.length];
      rewrite (filter_other_source p _ _ Hfresh); reflexivity.
  - destruct (String.eqb_spec (sourceName definition) (sourceName other)) as [E|_].
    + exfalso. apply Hfresh. rewrite <- E. apply in_map. exact Hin.
    + cbn [andb]. apply IH; assumption.
Qed.

(** X26.  The outcomes of a request are filed by provider: under each source
    name, the entries of the error list (a failed validation, a rejected task
    or a result that could not be extracted) and the fulfilled tasks together
    number the providers of that name that are enabled and match the active
    filters.  When the registry gives every provider its own source name,
    such a provider has exactly one outcome, an error entry or a fulfilled
    task, any other provider of the registry has none, and no provider has
    two error entries; a name that is not in the registry has no outcome. *)
Theorem one_outcome_per_candidate
    sanitize (registry : list IntegrationDefinition) bm25
    (q : string) activeFilters (configs : gmap string Config)
    (breakers : gmap string CircuitBreaker) (w : World) :
  JS.trim q <> ""%string ->
  let d := build_tasks registry (JS.trim q) (safeFilters activeFilters) configs breakers w in
  let reply :=
    fst (fst (search sanitize registry bm25 (JS.Str q) activeFilters
                (Fulfilled configs) breakers w)) in
  let outcomes := fun source =>
    (entries_of source (errors reply) + successes_of source (tasks d))%nat in
  (forall source,
      outcomes source
      = List.length
          (List.filter
             (fun definition => String.eqb source (sourceName definition)
                                && expected_candidate activeFilters configs definition)
             registry))
  /\ (List.NoDup (List.map sourceName registry) ->
      forall definition, In definition registry ->
        outcomes (sourceName definition)
        = (if expected_candidate activeFilters configs definition then 1%nat else 0%nat)
        /\ (entries_of (sourceName definition) (errors reply) <= 1)%nat)
  /\ (forall source, ~ In source (List.map sourceName registry) -> outcomes source = 0%nat).
Proof.
  intros Hq d reply outcomes.
  assert (H : forall source,
             outcomes source
             = List.length
                 (List.filter
                    (fun definition => String.eqb source (sourceName definition)
                                       && expected_candidate activeFilters configs definition)
                    registry)).
  { intros source. unfold outcomes, reply, search.
    destruct (String.eqb_spec (JS.trim q) ""); [contradiction|].
    fold d. cbn [fst errors]. unfold collect.
    rewrite collect_errors_source. cbn [errors].
    assert (Hacc := build_source (clock w) (JS.trim q) (safeFilters activeFilters)
                      configs registry (mkDispatch [] [] breakers w) source).
    cbn zeta in Hacc.
    fold (build_tasks registry (JS.trim q) (safeFilters activeFilters) configs breakers w)
      in Hacc.
    fold d in Hacc. cbn [validation_errors tasks] in Hacc.
    change (entries_of source []) with 0%nat in Hacc.
    change (List.length (List.filter _ (@nil TaskEntry))) with 0%nat in Hacc.
    assert (Hsplit := filter_source_split
                        (fun t => String.eqb source (task_source t)) task_ok (tasks d)).
    unfold successes_of.
    rewrite (filter_ext _ _ (fun definition =>
               f_equal (andb (String.eqb source (sourceName definition)))
                 (expected_candidate_candidate activeFilters configs definition))).
    lia. }
  split; [exact H|]. split.
  - intros Hnd definition Hin.
    assert (E : outcomes (sourceName definition)
                = if expected_candidate activeFilters configs definition
                  then 1%nat else 0%nat).
    { rewrite H. apply filter_own_source; assumption. }
    split; [exact E|].
    unfold outcomes in E.
    destruct (expected_candidate activeFilters configs definition); lia.
  - intros source Hn. rewrite H, filter_other_source by exact Hn. reflexivity.
Qed.

Lemma one_outcome_per_candidate_witness :
  let sanitize := fun message _ : string => message in
  let activeFilters := Some [JS.Str "jira"; JS.Str "azureDevops"; JS.Str "asana"] in
  let reply :=
    fst (fst (search sanitize sample_registry true (JS.Str "deploy") activeFilters
                (Fulfilled sample_configs) ∅ quiet_world)) in
  let d := build_tasks sample_registry (JS.trim "deploy") (safeFilters activeFilters)
             sample_configs ∅ quiet_world in
  JS.trim "deploy" <> ""%string
  /\ List.NoDup (List.map sourceName sample_registry)
  /\ List.map (expected_candidate activeFilters sample_configs) sample_registry
     = [true; false; true; false]
  /\ List.map (fun definition =>
                 (entries_of (sourceName definition) (errors reply)
                  + successes_of (sourceName definition) (tasks d))%nat) sample_registry
     = [1; 0; 1; 0]%nat
  /\ (entries_of "Jira" (errors reply) <= 1)%nat
  /\ (entries_of "Trello" (errors reply) + successes_of "Trello" (tasks d) = 0)%nat.
Proof.
  intros sanitize activeFilters reply d.
  assert (Hq : JS.trim "deploy" <> ""%string) by (vm_compute; discriminate).
  assert (Hnd : List.NoDup (List.map sourceName sample_registry)).
  { simpl. repeat (apply List.NoDup_cons; [simpl; intuition discriminate|]).
    apply List.NoDup_nil. }
  destruct (one_outcome_per_candidate sanitize sample_registry true "deploy" activeFilters
              sample_configs ∅ quiet_world Hq) as (_ & Hone & Hnone).
  split; [exact Hq|]. split; [exact Hnd|]. split; [reflexivity|].
  split; [reflexivity|]. split.
  - destruct (Hone Hnd (nth 0 sample_registry flaky_jira) (or_introl eq_refl))
      as [_ Hle].
    exact Hle.
  - apply Hnone. simpl. intuition discriminate.
Defined.

(** X27.  A provider whose breaker is OPEN and still before its deadline is
    not called: its task is rejected on the spot with the "service
    unavailable" error, which becomes its entry in the error list, and
    neither the breakers nor the call log change. *)
Theorem open_breaker_skips_provider
    sanitize t0 q filters (integrations : gmap string Config) (acc : Dispatch)
    (definition : IntegrationDefinition) (cb : CircuitBreaker) :
  dispatched filters integrations definition = true ->
  circuitBreakers acc !! id definition = Some cb ->
  state cb = OPEN ->
  before_next_attempt t0 cb = true ->
  let acc' := dispatch_one t0 q filters integrations acc definition in
  let t := mkTask (sourceName definition) (extractor_of definition)
             (Rejected circuit_open_error) in
  tasks acc' = tasks acc ++ [t]
  /\ circuitBreakers acc' = circuitBreakers acc
  /\ calls (world acc') = calls (world acc)
  /\ forall reply,
       collect_one sanitize reply t
       = mkReply (results reply)
           (errors reply
            ++ [(sourceName definition,
                 String.append (sourceName definition)
                   (String.append " error: "
                      (sanitize "Circuit breaker is OPEN - service unavailable"
                         (sourceName definition))))]).
Proof.
  intros Hd Hcb Hs Hb acc' t.
  destruct (dispatch_one_run t0 q filters integrations acc definition Hd)
    as (Ht & _ & Hbr & Hc).
  assert (Hgot : getCircuitBreaker (id definition) breaker_options (circuitBreakers acc)
                 = (cb, circuitBreakers acc)).
  { unfold getCircuitBreaker. rewrite Hcb. reflexivity. }
  rewrite Hgot in Ht, Hbr, Hc. simpl fst in Ht, Hbr, Hc. simpl snd in Hbr.
  unfold search_task in Ht, Hbr, Hc.
  rewrite execute_open_refuses in Ht, Hbr, Hc by assumption.
  simpl in Ht, Hbr, Hc.
  split; [exact Ht|]. split; [|split; [exact Hc|]].
  - unfold acc'. rewrite Hbr. apply insert_id. exact Hcb.
  - intros reply. reflexivity.
Qed.

Lemma open_breaker_skips_provider_witness :
  let tripped := record_failures [1000; 2000; 3000] (new_CircuitBreaker breaker_options) in
  let integrations : gmap string Config := <["jira" := jira_config]> ∅ in
  let acc := mkDispatch [] [] (<["jira" := tripped]> ∅) quiet_world in
  let acc' := dispatch_one 4000 "deploy" [] integrations acc flaky_jira in
  dispatched [] integrations flaky_jira = true
  /\ state tripped = OPEN
  /\ before_next_attempt 4000 tripped = true
  /\ List.map task_promise (tasks acc') = [Rejected circuit_open_error]
  /\ calls (world acc') = [].
Proof.
  intros tripped integrations acc acc'.
  assert (Hd : dispatched [] integrations flaky_jira = true) by (vm_compute; reflexivity).
  assert (Hcb : circuitBreakers acc !! id flaky_jira = Some tripped)
    by (vm_compute; reflexivity).
  assert (Hs : state tripped = OPEN) by reflexivity.
  assert (Hb : before_next_attempt 4000 tripped = true) by reflexivity.
  destruct (open_breaker_skips_provider (fun m _ => m) 4000 "deploy" [] integrations
              acc flaky_jira tripped Hd Hcb Hs Hb) as (Ht & _ & Hc & _).
  split; [exact Hd|]. split; [exact Hs|]. split; [exact Hb|].
  split; [unfold acc'; rewrite Ht; reflexivity|exact Hc].
Defined.

End Accounting.

(** ** Registry validators *)

Section Validators.

Import Registry.

Lemma hasRequiredFields_missing config fields :
  hasRequiredFields config fields = true
  <-> List.filter (is_missing config) fields = [].
Proof.
  unfold hasRequiredFields. induction fields as [|f fields IH]; simpl; [tauto|].
  unfold is_missing at 1.
  destruct (settings config !! f) as [s|]; simpl.
  - destruct (String.eqb s ""); simpl; [split; discriminate|].
    destruct (String.eqb (JS.trim s) ""); simpl; [split; discriminate|]. exact IH.
  - split; discriminate.
Qed.

(** X28.  [validateSearchConfig] of the four integrations answers [null]
    exactly when no required setting is absent, empty or blank; otherwise its
    message is built from the settings that are, of which there is at least
    one. *)
Theorem requireFields_reports_missing
    (name : string) (fields : list string) (config : Config) :
  (requireFields name fields config = None
   <-> List.filter (is_missing config) fields = [])
  /\ forall m, requireFields name fields config = Some m ->
       m = formatMissingFieldsError config name fields
       /\ exists field, In field fields /\ is_missing config field = true.
Proof.
  unfold requireFields.
  destruct (hasRequiredFields config fields) eqn:Hh; simpl.
  - split; [split; [intros _; apply hasRequiredFields_missing; exact Hh|reflexivity]|].
    intros m H. discriminate.
  - split.
    + split; [discriminate|]. intros Hnone.
      apply hasRequiredFields_missing in Hnone. congruence.
    + intros m [= <-]. split; [reflexivity|].
      destruct (List.filter (is_missing config) fields) as [|f rest] eqn:Hf.
      * apply hasRequiredFields_missing in Hf. congruence.
      * assert (Hin : In f (List.filter (is_missing config) fields))
          by (rewrite Hf; left; reflexivity).
        apply filter_In in Hin as [Hin Hm]. exists f. split; assumption.
Qed.

Lemma requireFields_reports_missing_witness :
  let config := mkConfig None (<["baseUrl" := "https://example.atlassian.net"]>
                                 (<["apiToken" := "   "]> ∅)) in
  requireFields "Jira" ["baseUrl"; "apiToken"]%string config
  = Some "Jira configuration is incomplete. Please provide: API Token."%string
  /\ exists field, In field ["baseUrl"; "apiToken"]%string
                   /\ is_missing config field = true.
Proof.
  intros config.
  assert (H : requireFields "Jira" ["baseUrl"; "apiToken"]%string config
              = Some "Jira configuration is incomplete. Please provide: API Token."%string)
    by (vm_compute; reflexivity).
  split; [exact H|].
  destruct (requireFields_reports_missing "Jira" ["baseUrl"; "apiToken"]%string config)
    as [_ Hsome].
  destruct (Hsome _ H) as [_ Hex]. exact Hex.
Defined.

End Validators.

(** ** Error boundary and aggregation *)

Section Boundaries.

Import ErrorBoundaries.

(** X29.  An error boundary whose handler does not throw rejects with
    nothing but the error [fn] itself threw: a value comes from [fn] or, after
    a failure of [fn], from the fallback; when the fallback fails too, its
    error is dropped in favour of the original one.  When [fn] succeeds the
    boundary returns what [fn] returned without running handler or
    fallback. *)
Theorem boundary_outcomes {A} (self : ErrorBoundary A) (fn : Task A) (w : World) :
  (forall e w0, fst (onError self e w0) = Fulfilled tt) ->
  match fst (boundary_execute self fn w) with
  | Fulfilled v =>
      fst (fn w) = Fulfilled v
      \/ exists e recover w2,
           fst (fn w) = Rejected e /\ fallback self = Some recover
           /\ fst (recover e w2) = Fulfilled v
  | Rejected e => fst (fn w) = Rejected e
  end
  /\ (forall v, fst (fn w) = Fulfilled v -> boundary_execute self fn w = fn w).
Proof.
  intros Hh. unfold boundary_execute.
  destruct (fn w) as [r w1]. destruct r as [v|e]; simpl.
  - split; [left; reflexivity|]. intros; reflexivity.
  - split; [|intros; discriminate].
    specialize (Hh e w1). destruct (onError self e w1) as [handled w2].
    simpl in Hh. subst handled.
    destruct (fallback self) as [recover|] eqn:Hf; simpl; [|reflexivity].
    destruct (recover e w2) as [r' w3] eqn:Hr. destruct r' as [v|e']; simpl.
    + right. exists e, recover, w2. rewrite Hr. repeat split.
    + reflexivity.
Qed.

Lemma boundary_outcomes_witness :
  let self : ErrorBoundary nat :=
    new_ErrorBoundary
      (mkBoundaryOptions None
         (Some (fun _ w => (Rejected (mkError "fallback failed" None None), w)))) in
  let boom := mkError "boom" None None in
  let fn : Task nat := fun w => (Rejected boom, w) in
  (forall e w0, fst (onError self e w0) = Fulfilled tt)
  /\ fst (boundary_execute self fn Spec.quiet_world) = Rejected boom.
Proof.
  intros self boom fn.
  assert (Hh : forall e w0, fst (onError self e w0) = Fulfilled tt)
    by (intros; reflexivity).
  destruct (boundary_outcomes self fn Spec.quiet_world Hh) as [H _].
  split; [exact Hh|]. reflexivity.
Defined.

Lemma includes_string_In l m :
  IntegrationUtils.includes_string l m = true <-> In m l.
Proof.
  unfold IntegrationUtils.includes_string. rewrite existsb_exists. split.
  - intros (x & Hx & He). apply String.eqb_eq in He. subst. exact Hx.
  - intros H. exists m. split; [exact H|apply String.eqb_refl].
Qed.

Lemma unique_from_spec messages :
  forall seen,
    List.NoDup (unique_from seen messages)
    /\ forall m, In m (unique_from seen messages) <-> In m messages /\ ~ In m seen.
Proof.
  induction messages as [|x messages IH]; intros seen; simpl.
  - split; [constructor|]. intros m. tauto.
  - destruct (IntegrationUtils.includes_string seen x) eqn:Hx.
    + apply includes_string_In in Hx.
      destruct (IH seen) as [Hnd Hin]. split; [exact Hnd|].
      intros m. rewrite Hin. split.
      * intros [H1 H2]. split; [right; exact H1|exact H2].
      * intros [[<-|H1] H2]; [contradiction|split; assumption].
    + assert (Hnx : ~ In x seen).
      { intros H. apply includes_string_In in H. congruence. }
      destruct (IH (x :: seen)) as [Hnd Hin]. split.
      * constructor; [|exact Hnd]. rewrite Hin. simpl. tauto.
      * intros m. simpl. rewrite Hin. simpl. split.
        -- intros [<-|[H1 H2]]; [tauto|]. split; [right; exact H1|tauto].
        -- intros [[<-|H1] H2]; [left; reflexivity|].
           destruct (string_dec x m) as [->|Hne]; [left; reflexivity|].
           right. split; [exact H1|]. intros [H|H]; [contradiction|contradiction].
Qed.

Lemma nonempty_messages_spec errors m :
  In m (nonempty_messages errors)
  <-> m <> ""%string /\ exists e, In e errors /\ message e = m.
Proof.
  unfold nonempty_messages. rewrite filter_In, in_map_iff. split.
  - intros [(e & He & Hin) Hne]. split.
    + intros ->. discriminate Hne.
    + exists e. split; assumption.
  - intros [Hne (e & Hin & He)]. split; [exists e; split; assumption|].
    destruct (String.eqb_spec m ""); [contradiction|reflexivity].
Qed.

(** X30.  [aggregateErrors] answers [null] for no error and the error itself
    for a single one; for several errors it builds an aggregate that keeps
    all of them, and whose message lists every distinct non-empty message of
    theirs exactly once. *)
Theorem aggregateErrors_cases (errors : list Error) :
  (aggregateErrors errors = NoError <-> errors = [])
  /\ (forall e, errors = [e] -> aggregateErrors errors = TheError e)
  /\ ((2 <= List.length errors)%nat ->
      exists unique,
        aggregateErrors errors
        = AggregateError
            (String.append "Multiple errors occurred ("
               (String.append (decimal (List.length errors))
                  (String.append "):"
                     (String.append newline (RelevanceScorer.join newline unique)))))
            errors
        /\ List.NoDup unique
        /\ forall m, In m unique
                     <-> m <> ""%string /\ exists e, In e errors /\ message e = m).
Proof.
  split; [|split].
  - destruct errors as [|e1 [|e2 rest]]; simpl; split; intros H; try discriminate H;
      reflexivity.
  - intros e ->. reflexivity.
  - intros Hlen. destruct errors as [|e1 [|e2 rest]]; simpl in Hlen; try lia.
    destruct (unique_from_spec (nonempty_messages (e1 :: e2 :: rest)) []) as [Hnd Hin].
    eexists. split; [reflexivity|]. split; [exact Hnd|].
    intros m. rewrite Hin, nonempty_messages_spec. simpl. tauto.
Qed.

Lemma aggregateErrors_cases_witness :
  let timeout := mkError "timeout" None None in
  let silent := mkError "" None None in
  (2 <= List.length [timeout; silent; timeout])%nat
  /\ aggregateErrors [timeout; silent; timeout]
     = AggregateError
         (String.append "Multiple errors occurred (3):"
            (String.append newline "timeout"))
         [timeout; silent; timeout].
Proof.
  intros timeout silent.
  assert (Hlen : (2 <= List.length [timeout; silent; timeout])%nat) by (simpl; lia).
  destruct (aggregateErrors_cases [timeout; silent; timeout]) as (_ & _ & Hmany).
  destruct (Hmany Hlen) as (unique & Hagg & _).
  split; [exact Hlen|]. reflexivity.
Defined.

End Boundaries.
